(** * notifiy.py: nickname-mention notifications for a Willie bot

    A shallow embedding of [src/modules/notifiy.py] and the properties of
    its subscription table and of its mention matcher.

    Modelling conventions.
    - Python text is a Rocq [string]; [lower] folds the ASCII letters
      (message and nicknames are taken to be ASCII text).
    - The SQL table is the list of its rows, in the order a [SELECT]
      without [ORDER BY] yields them.  The three text columns are declared
      [string], which gives them numeric affinity: a word that reads as a
      number is stored, compared and printed as that number ([Sql.affinity]).
      A cell is represented by what Python's [str] prints for it.
    - A statement built by [str.format] is modelled by what it denotes when
      the words put into it are ASCII and hold no quote character
      ([Sql.literal_safe]); the matcher is modelled for nicknames stored as
      text ([Sql.textual]).  Properties that depend on this say so in their
      hypotheses.
    - Python integers are unbounded: primary keys are [Z]; the ids stay
      below SQLite's 64-bit limit.
    - Module globals, the database, the replies of the bot and the calls
      made to the delivery services are the fields of one [World]; every
      function of the module is a computation in a state-and-exception
      monad over it.
    - What the push service and the SMTP server answer is decided outside
      the program: the [World] carries those answers as [Extern]. *)

From Stdlib Require Import List String Ascii ZArith Lia Bool Sorted.
From Stdlib Require Import DecimalString.
Import ListNotations.
Local Open Scope string_scope.
Local Open Scope Z_scope.

(** ** Python string operations used by the module *)

Module PyStr.

(** One character of [str.lower()]: [A]..[Z] move to [a]..[z]. *)
Definition lower_ascii (c : ascii) : ascii :=
  let n := nat_of_ascii c in
  if ((65 <=? n)%nat && (n <=? 90)%nat)%bool
  then ascii_of_nat (n + 32) else c.

(** [s.lower()] *)
Fixpoint lower (s : string) : string :=
  match s with
  | EmptyString => EmptyString
  | String c s' => String (lower_ascii c) (lower s')
  end.

(** [s.startswith(p)] *)
Definition startswith (s p : string) : bool := String.prefix p s.

(** [needle in hay]: substring containment, tried at every offset. *)
Fixpoint contains (needle hay : string) : bool :=
  if String.prefix needle hay then true
  else match hay with
       | EmptyString => false
       | String _ hay' => contains needle hay'
       end.

(** [s[:n]] for a non-negative [n]. *)
Fixpoint take (n : nat) (s : string) : string :=
  match n, s with
  | O, _ => EmptyString
  | S _, EmptyString => EmptyString
  | S n', String c s' => String c (take n' s')
  end.

(** [s.split(' ')]: cuts at every single space and keeps empty pieces;
    the result is never empty. *)
Fixpoint split_space (s : string) : list string :=
  match s with
  | EmptyString => [EmptyString]
  | String c s' =>
      if Ascii.eqb c " "%char then EmptyString :: split_space s'
      else match split_space s' with
           | [] => [String c EmptyString]
           | piece :: rest => String c piece :: rest
           end
  end.

(** [sep.join(parts)] *)
Fixpoint join (sep : string) (parts : list string) : string :=
  match parts with
  | [] => EmptyString
  | [p] => p
  | p :: rest => p ++ sep ++ join sep rest
  end.

(** [str(n)] for an integer. *)
Definition str_int (n : Z) : string := NilZero.string_of_int (Z.to_int n).

End PyStr.

(** ** What SQLite makes of the words put into a statement *)

Module Sql.

Fixpoint all_chars (p : ascii -> bool) (s : string) : bool :=
  match s with
  | EmptyString => true
  | String c s' => (p c && all_chars p s')%bool
  end.

Definition digit (c : ascii) : bool :=
  let n := nat_of_ascii c in ((48 <=? n)%nat && (n <=? 57)%nat)%bool.

(** White space as SQLite skips it around a number. *)
Definition space_char (c : ascii) : bool :=
  let n := nat_of_ascii c in
  ((n =? 32)%nat || ((9 <=? n)%nat && (n <=? 13)%nat))%bool.

(** The characters a numeric literal is written with. *)
Definition numeric_char (c : ascii) : bool :=
  (digit c || Ascii.eqb c "+" || Ascii.eqb c "-" || Ascii.eqb c "."
   || Ascii.eqb c "e" || Ascii.eqb c "E" || space_char c)%bool.

Definition ascii_text (s : string) : bool :=
  all_chars (fun c => (nat_of_ascii c <? 128)%nat) s.

Definition quote_free (s : string) : bool :=
  all_chars (fun c => negb (Ascii.eqb c "'")) s.

(** A word that [str.format] puts between the quotes of a statement as it
    is: ASCII text without a quote. *)
Definition literal_safe (s : string) : bool :=
  (ascii_text s && quote_free s)%bool.

(** A word that could be a numeric literal: not empty and written with
    numeric characters only. *)
Definition maybe_numeric (s : string) : bool :=
  (negb (String.eqb s "") && all_chars numeric_char s)%bool.

(** A word that is stored as the text it is. *)
Definition textual (s : string) : bool :=
  (literal_safe s && negb (maybe_numeric s))%bool.

(** One to eighteen digits: an integer that fits 64 bits. *)
Definition short_digits (s : string) : bool :=
  (negb (String.eqb s "") && all_chars digit s
   && (String.length s <=? 18)%nat)%bool.

Fixpoint digits_value_from (acc : Z) (s : string) : Z :=
  match s with
  | EmptyString => acc
  | String c s' =>
      digits_value_from (10 * acc + Z.of_nat (nat_of_ascii c - 48)) s'
  end.

Definition digits_value (s : string) : Z := digits_value_from 0 s.

(** The cell a word becomes in a column of numeric affinity, as [str]
    prints it: a short run of digits is the integer it denotes; a word that
    holds a character no number is written with stays as it is; for the
    remaining words (reals, signed, padded or long integers) the engine's
    answer is [other]. *)
Definition affinity (other : string -> string) (w : string) : string :=
  if short_digits w then PyStr.str_int (digits_value w)
  else if maybe_numeric w then other w
  else w.

End Sql.

(** ** The notification table

    Columns [pkey | nick | service | parameter], [pkey] the primary key. *)

Record Row := mkRow {
  pkey : Z;
  nick : string;
  service : string;
  parameter : string
}.

Definition Table := list Row.

Module Db.

(** [willie.db.Table.keys(key=col)] runs [SELECT col FROM table] and
    returns [fetchall()]: the column's value of every row, one entry per
    row. *)
Definition keys {A : Type} (col : Row -> A) (t : Table) : list A :=
  map col t.

(** [SELECT * FROM table WHERE cond] *)
Definition select (cond : Row -> bool) (t : Table) : list Row :=
  filter cond t.

(** [DELETE FROM table WHERE cond] *)
Definition delete (cond : Row -> bool) (t : Table) : Table :=
  filter (fun r => negb (cond r)) t.

(** [INSERT INTO table VALUES (...)]: refused when the primary key is
    already present. *)
Definition insert (r : Row) (t : Table) : option Table :=
  if existsb (fun r' => Z.eqb (pkey r') (pkey r)) t then None
  else Some (t ++ [r])%list.

(** The primary-key constraint of the schema. *)
Definition keys_unique (t : Table) : Prop := NoDup (keys pkey t).

End Db.

(** ** Values the module exchanges with its collaborators *)

Inductive Exn :=
| NameError (name : string)
| AttributeError (attr : string)
| ValueError (msg : string)
| IntegrityError
| ServiceError (what : string).

(** [bot.config]: the [notify] section and [core.nick]; an option that is
    not set reads as [None]. *)
Record Bot := mkBot {
  table_name : string;
  pushover_app_api : option string;
  email_address : option string;
  email_server : option string;
  email_port : option string;
  email_username : option string;
  email_password : option string;
  core_nick : string
}.

(** The part of a trigger the command handlers read. *)
Record Trigger := mkTrigger {
  sender : string;
  admin : bool;
  group2 : option string
}.

(** The [MIMEText] object built by [notify_email]. *)
Record MIMEText := mkMIMEText {
  payload : string;
  Subject : string;
  From : option string;
  To : string
}.

(** The [smtplib.SMTP] object held in the global [SMTP]. *)
Record Session := mkSession {
  smtp_host : option string;
  smtp_port : option string;
  smtp_auth : option (string * string)
}.

(** A call made to a delivery service. *)
Inductive Call :=
| PushoverSend (user_key message : string)
| SmtpSendmail (from_addr : option string) (to_addrs : list string)
               (msg : MIMEText).

(** A line sent back to the chat. *)
Inductive Out :=
| Reply (text : string)
| Say (text : string).

(** The answers of the outside world and of the database engine: [None]
    when the call returns, [Some e] when it raises [e].  [pushover_request]
    also receives the application token the library currently holds. *)
Record Extern := mkExtern {
  pushover_request : option string -> string -> string -> option Exn;
  smtp_connect : option string -> option string -> option Exn;
  smtp_login : string -> string -> option Exn;
  smtp_sendmail : Session -> option string -> list string -> MIMEText
                  -> option Exn;
  (** the cell SQLite stores for a word [Sql.affinity] leaves open *)
  numeric_affinity : string -> string;
  (** the answer of [willie_db.check_table] *)
  check_table : bool;
  (** the answer to [CREATE TABLE notifydb] *)
  create_table : option Exn
}.

(** ** The state of the running module *)

Record World := mkWorld {
  ext : Extern;
  (** is the global name [pushover] bound (did [import pushover] succeed) *)
  pushover_bound : bool;
  (** the global flag [PUSHOVER] *)
  PUSHOVER : bool;
  (** the token given to [pushover.init], if any *)
  pushover_token : option string;
  (** the global [SMTP]; [None] while the name is unbound *)
  SMTP : option Session;
  db : Table;
  (** delivery calls made so far, oldest first, failed ones included *)
  calls : list Call;
  (** lines sent to the chat so far, oldest first *)
  said : list Out
}.

Definition with_PUSHOVER (b : bool) (w : World) : World :=
  mkWorld (ext w) (pushover_bound w) b (pushover_token w) (SMTP w) (db w)
          (calls w) (said w).
Definition with_token (t : option string) (w : World) : World :=
  mkWorld (ext w) (pushover_bound w) (PUSHOVER w) t (SMTP w) (db w)
          (calls w) (said w).
Definition with_SMTP (s : option Session) (w : World) : World :=
  mkWorld (ext w) (pushover_bound w) (PUSHOVER w) (pushover_token w) s (db w)
          (calls w) (said w).
Definition with_db (t : Table) (w : World) : World :=
  mkWorld (ext w) (pushover_bound w) (PUSHOVER w) (pushover_token w) (SMTP w) t
          (calls w) (said w).
Definition with_calls (c : list Call) (w : World) : World :=
  mkWorld (ext w) (pushover_bound w) (PUSHOVER w) (pushover_token w) (SMTP w)
          (db w) c (said w).
Definition with_said (o : list Out) (w : World) : World :=
  mkWorld (ext w) (pushover_bound w) (PUSHOVER w) (pushover_token w) (SMTP w)
          (db w) (calls w) o.

(** The module right after import, before [setup]. *)
Definition imported (x : Extern) (import_ok : bool) (t : Table) : World :=
  mkWorld x import_ok import_ok None None t [] [].

(** ** Computations: state and exceptions *)

Inductive Res (A : Type) :=
| Ok (a : A)
| Raise (e : Exn).
Arguments Ok {A} a.
Arguments Raise {A} e.

Definition M (A : Type) : Type := World -> Res A * World.

Definition ret {A : Type} (a : A) : M A := fun w => (Ok a, w).

Definition bind {A B : Type} (m : M A) (k : A -> M B) : M B :=
  fun w => match m w with
           | (Ok a, w') => k a w'
           | (Raise e, w') => (Raise e, w')
           end.

Definition raise {A : Type} (e : Exn) : M A := fun w => (Raise e, w).

Definition gets {A : Type} (f : World -> A) : M A := fun w => (Ok (f w), w).

Definition modify (f : World -> World) : M unit := fun w => (Ok tt, f w).

Declare Scope py_scope.
Delimit Scope py_scope with py.
Notation "x <- c ;; k" := (bind c (fun x => k))
  (at level 61, c at next level, right associativity) : py_scope.
Notation "c ;; k" := (bind c (fun _ => k))
  (at level 61, right associativity) : py_scope.
Local Open Scope py_scope.

(** [for x in xs: body(x)]; an exception raised by the body leaves the
    loop. *)
Fixpoint for_each {A : Type} (xs : list A) (body : A -> M unit) : M unit :=
  match xs with
  | [] => ret tt
  | x :: xs' => body x ;; for_each xs' body
  end.

(** ** Primitive effects *)

(** Reading the global name [pushover]. *)
Definition global_pushover : M unit :=
  fun w => if pushover_bound w then (Ok tt, w)
           else (Raise (NameError "pushover"), w).

(** Reading the global name [SMTP]. *)
Definition global_SMTP : M Session :=
  fun w => match SMTP w with
           | Some s => (Ok s, w)
           | None => (Raise (NameError "SMTP"), w)
           end.

(** The truth value of a module object. *)
Definition module_truth : bool := true.

(** The truth value of a configuration option: [None] and the empty
    string are false. *)
Definition truthy (o : option string) : bool :=
  match o with
  | Some s => negb (String.eqb s "")
  | None => false
  end.

(** [v is not 'literal']: an identity test; a value read from the
    configuration file is never the object of a literal of the source. *)
Definition is_not_literal (v : option string) (literal : string) : bool :=
  true.

(** [pushover.init(token)] *)
Definition pushover_init (token : option string) : M unit :=
  global_pushover ;; modify (with_token token).

(** [pushover.Client(user_key).send_message(message)]: the call is
    recorded, then the service answers. *)
Definition pushover_send_message (user_key message : string) : M unit :=
  fun w =>
    let w' :=
      with_calls (calls w ++ [PushoverSend user_key message])%list w in
    match pushover_request (ext w) (pushover_token w) user_key message with
    | None => (Ok tt, w')
    | Some e => (Raise e, w')
    end.

(** [smtplib.SMTP(host, port)] *)
Definition smtplib_SMTP (host port : option string) : M Session :=
  fun w => match smtp_connect (ext w) host port with
           | None => (Ok (mkSession host port None), w)
           | Some e => (Raise e, w)
           end.

(** [SMTP.login(user, password)] on the global session. *)
Definition SMTP_login (user password : string) : M unit :=
  s <- global_SMTP ;;
  fun w => match smtp_login (ext w) user password with
           | None =>
               (Ok tt,
                with_SMTP (Some (mkSession (smtp_host s) (smtp_port s)
                                           (Some (user, password)))) w)
           | Some e => (Raise e, w)
           end.

(** [SMTP.sendmail(from_addr, to_addrs, msg.as_string())]: the call is
    recorded, then the server answers. *)
Definition SMTP_sendmail (from_addr : option string) (to_addrs : list string)
    (msg : MIMEText) : M unit :=
  s <- global_SMTP ;;
  fun w =>
    let w' :=
      with_calls (calls w ++ [SmtpSendmail from_addr to_addrs msg])%list w in
    match smtp_sendmail (ext w) s from_addr to_addrs msg with
    | None => (Ok tt, w')
    | Some e => (Raise e, w')
    end.

(** [bot.reply(text)] and [bot.say(text)] *)
Definition bot_reply (text : string) : M unit :=
  modify (fun w => with_said (said w ++ [Reply text])%list w).
Definition bot_say (text : string) : M unit :=
  modify (fun w => with_said (said w ++ [Say text])%list w).

(** [notifydb.keys(key=col)] *)
Definition notifydb_keys {A : Type} (col : Row -> A) : M (list A) :=
  gets (fun w => Db.keys col (db w)).

(** [connect.execute("SELECT * FROM t WHERE ...")] *)
Definition sql_select (cond : Row -> bool) : M (list Row) :=
  gets (fun w => Db.select cond (db w)).

(** [connect.execute("DELETE FROM t WHERE ...")] *)
Definition sql_delete (cond : Row -> bool) : M unit :=
  modify (fun w => with_db (Db.delete cond (db w)) w).

(** The cell a word of a statement denotes. *)
Definition sql_cell (word : string) : M string :=
  gets (fun w => Sql.affinity (numeric_affinity (ext w)) word).

(** [connect.execute("INSERT INTO t VALUES (k,'n','s','p')")] *)
Definition sql_insert (k : Z) (n s p : string) : M unit :=
  n' <- sql_cell n ;;
  s' <- sql_cell s ;;
  p' <- sql_cell p ;;
  fun w => match Db.insert (mkRow k n' s' p') (db w) with
           | Some t => (Ok tt, with_db t w)
           | None => (Raise IntegrityError, w)
           end.

(** [connect.execute("CREATE TABLE notifydb (...)")]: the rows of the
    configured table are not its concern. *)
Definition sql_create_table : M unit :=
  fun w => match create_table (ext w) with
           | None => (Ok tt, w)
           | Some e => (Raise e, w)
           end.

(** ** Module setup (lines 54-86) *)

Definition EMAIL : bool := true.

Definition setup (bot : Bot) : M unit :=
  flag <- gets PUSHOVER ;;
  (if flag then
     let app_api := pushover_app_api bot in
     if (truthy app_api && is_not_literal app_api "none")%bool
     then pushover_init app_api
     else modify (with_PUSHOVER false)
   else ret tt) ;;
  (if EMAIL then
     session <- smtplib_SMTP (email_server bot) (email_port bot) ;;
     modify (with_SMTP (Some session)) ;;
     match email_username bot, email_password bot with
     | Some user, Some password =>
         if (truthy (Some user) && truthy (Some password))%bool
         then SMTP_login user password else ret tt
     | _, _ => ret tt
     end
   else ret tt) ;;
  present <- gets (fun w => check_table (ext w)) ;;
  if negb present then sql_create_table else ret tt.

(** ** Notification functions (lines 109-131) *)

Definition notify_pushover (bot : Bot) (row : Row) (message : string)
  : M unit :=
  global_pushover ;;
  if module_truth then
    pushover_send_message (parameter row) message
  else
    raise (ValueError "Pushover service is not avalible").

Definition notify_email (bot : Bot) (row : Row) (message : string) : M unit :=
  let email_address := email_address bot in
  let msg :=
    mkMIMEText message
      ("[" ++ core_nick bot ++ "] " ++ PyStr.take 20 message ++ "...")
      email_address
      (parameter row) in
  SMTP_sendmail email_address [parameter row] msg.

Definition Notifier : Type := Bot -> Row -> string -> M unit.

Definition SERVICES : list (string * Notifier) :=
  [("pushover", notify_pushover); ("email", notify_email)].

(** [d.get(key, None)] *)
Fixpoint dict_get {V : Type} (d : list (string * V)) (key : string)
  : option V :=
  match d with
  | [] => None
  | (k, v) :: d' => if String.eqb k key then Some v else dict_get d' key
  end.

(** ** Database functions (lines 136-150) *)

(** [get_notifydb(bot)] builds a table handle; it reads nothing. *)
Definition get_notifydb (bot : Bot) : M unit := ret tt.

(** [max(xs)] for a list with first element [x]. *)
Definition py_max (x : Z) (xs : list Z) : Z := fold_left Z.max xs x.

Definition get_new_pkey : M Z :=
  pkeys <- notifydb_keys pkey ;;
  match pkeys with
  | [] => ret 1
  | k :: ks => ret (py_max k ks + 1)
  end.

Definition add_new_notify (pkey : Z) (nick service parameter : string)
  : M unit :=
  sql_insert pkey nick service parameter.

(** ** Willie commands (lines 155-215) *)

(** [nick, service, parameter = trigger.group(2).split(' ')] *)
Definition unpack_args (trigger : Trigger) : M (string * string * string) :=
  match group2 trigger with
  | None => raise (AttributeError "split")
  | Some text =>
      match PyStr.split_space text with
      | [nick; service; parameter] => ret (nick, service, parameter)
      | _ => raise (ValueError "unpack")
      end
  end.

(** [' | '.join(itertools.imap(str, row))] *)
Definition format_row (row : Row) : string :=
  PyStr.join " | "
    [PyStr.str_int (pkey row); nick row; service row; parameter row].

Definition add_notification (bot : Bot) (trigger : Trigger) : M unit :=
  if PyStr.startswith (sender trigger) "#" then ret tt
  else if negb (admin trigger) then ret tt
  else
    get_notifydb bot ;;
    args <- unpack_args trigger ;;
    let '(nick, service, parameter) := args in
    new_pkey <- get_new_pkey ;;
    add_new_notify new_pkey nick service parameter ;;
    bot_reply ("We will now notify '" ++ nick ++ "' using '" ++ service
               ++ "' with '" ++ parameter ++ "'").

Definition remove_notification (bot : Bot) (trigger : Trigger) : M unit :=
  if PyStr.startswith (sender trigger) "#" then ret tt
  else if negb (admin trigger) then ret tt
  else
    args <- unpack_args trigger ;;
    let '(nick0, service0, parameter0) := args in
    nick1 <- sql_cell nick0 ;;
    service1 <- sql_cell service0 ;;
    parameter1 <- sql_cell parameter0 ;;
    cursor <- sql_select
                (fun r => (String.eqb (nick r) nick1
                           && String.eqb (service r) service1
                           && String.eqb (parameter r) parameter1)%bool) ;;
    for_each cursor (fun row =>
      bot_reply ("Removing " ++ format_row row) ;;
      sql_delete (fun r => Z.eqb (pkey r) (pkey row))).

Definition list_notifications (bot : Bot) (trigger : Trigger) : M unit :=
  if PyStr.startswith (sender trigger) "#" then ret tt
  else if negb (admin trigger) then ret tt
  else
    cursor <- sql_select (fun _ => true) ;;
    for_each cursor (fun row => bot_say (format_row row)).

(** ** Listener and notification dispatcher (lines 220-236) *)

(** The body of the inner loop: look the service up and call it. *)
Definition dispatch (bot : Bot) (message : string) (row : Row) : M unit :=
  match dict_get SERVICES (service row) with
  | Some func => func bot row message
  | None => ret tt
  end.

(** The body of the outer loop, for one entry of [nicks]: a nickname
    stored as text.  The [SELECT] compares the nickname cells with the
    print of one of them. *)
Definition detect_nick (bot : Bot) (message : string) (nick0 : string)
  : M unit :=
  if PyStr.contains (PyStr.lower nick0) (PyStr.lower message) then
    cursor <- sql_select (fun r => String.eqb (nick r) nick0) ;;
    for_each cursor (dispatch bot message)
  else ret tt.

Definition nick_detect (bot : Bot) (message : string) : M unit :=
  get_notifydb bot ;;
  nicks <- notifydb_keys nick ;;
  for_each nicks (detect_nick bot message).

(** ** The bot at work

    The framework calls one handler per event; an exception a handler
    raises ends that handler only. *)

Inductive Event :=
| AddNotification (trigger : Trigger)
| RemoveNotification (trigger : Trigger)
| ListNotifications (trigger : Trigger)
| Message (text : string).

Definition handle (bot : Bot) (ev : Event) : M unit :=
  match ev with
  | AddNotification trigger => add_notification bot trigger
  | RemoveNotification trigger => remove_notification bot trigger
  | ListNotifications trigger => list_notifications bot trigger
  | Message text => nick_detect bot text
  end.

Definition run (bot : Bot) (evs : list Event) (w : World) : World :=
  fold_left (fun w ev => snd (handle bot ev w)) evs w.

(** The worlds the bot goes through: [w] first, then the world after each
    event. *)
Fixpoint history (bot : Bot) (evs : list Event) (w : World) : list World :=
  match evs with
  | [] => [w]
  | ev :: evs' => w :: history bot evs' (snd (handle bot ev w))
  end.

(** A private message of an administrator carrying three arguments. *)
Definition admin_command (nick service parameter : string) : Trigger :=
  mkTrigger "admin" true
            (Some (nick ++ " " ++ service ++ " " ++ parameter)).

(** ** Vocabulary of the properties *)

(** The lowercased message holds the lowercased nickname as a substring. *)
Definition mentions (message nick0 : string) : Prop :=
  exists before after : string,
    PyStr.lower message = before ++ PyStr.lower nick0 ++ after.

(** Dispatching every record stored under a nickname. *)
Definition dispatch_records (bot : Bot) (message nick0 : string) : M unit :=
  cursor <- sql_select (fun r => String.eqb (nick r) nick0) ;;
  for_each cursor (dispatch bot message).

(** The records a message makes the matcher dispatch, in dispatch order. *)
Definition dispatch_plan (message : string) (t : Table) : list Row :=
  flat_map (fun n => Db.select (fun r => String.eqb (nick r) n) t)
    (filter (fun n => PyStr.contains (PyStr.lower n) (PyStr.lower message))
            (Db.keys nick t)).

(** A computation that leaves the rows of the table as they are. *)
Definition keeps_db {A : Type} (m : M A) : Prop :=
  forall w, db (snd (m w)) = db w.

(** A computation whose only effect on the world is to place delivery
    calls. *)
Definition delivers_only {A : Type} (m : M A) : Prop :=
  forall w, exists cs, snd (m w) = with_calls (calls w ++ cs)%list w.

(** The cell a word of a statement denotes in the world [w]. *)
Definition stored (w : World) (word : string) : string :=
  Sql.affinity (numeric_affinity (ext w)) word.

(** The key [get_new_pkey] computes for a table. *)
Definition next_pkey (t : Table) : Z :=
  match Db.keys pkey t with
  | [] => 1
  | k :: ks => py_max k ks + 1
  end.

(** What [remove_notification] says for a removed row. *)
Definition removal_echo (r : Row) : Out :=
  Reply ("Removing " ++ format_row r).

(** An id denotes one record over the whole run: two rows met at any two
    moments under the same id are the same row. *)
Definition ids_never_reused (bot : Bot) (evs : list Event) (w : World)
  : Prop :=
  forall w1 w2 r1 r2,
    In w1 (history bot evs w) -> In w2 (history bot evs w) ->
    In r1 (db w1) -> In r2 (db w2) ->
    pkey r1 = pkey r2 -> r1 = r2.

(** The command comes in a private message from an administrator. *)
Definition authorized (trigger : Trigger) : Prop :=
  PyStr.startswith (sender trigger) "#" = false /\ admin trigger = true.

(** The command's argument text splits into exactly these three words. *)
Definition names (trigger : Trigger) (nick0 service0 parameter0 : string)
  : Prop :=
  exists text, group2 trigger = Some text
               /\ PyStr.split_space text = [nick0; service0; parameter0].

(** The row test of [remove_notification]'s query. *)
Definition same_tuple (nick0 service0 parameter0 : string) (r : Row) : bool :=
  (String.eqb (nick r) nick0 && String.eqb (service r) service0
   && String.eqb (parameter r) parameter0)%bool.

(** [k] is one more than the largest of [ids], or 1 when there is none. *)
Definition is_next_id (ids : list Z) (k : Z) : Prop :=
  (ids = [] /\ k = 1)
  \/ (exists mx, In mx ids /\ Forall (fun j => j <= mx) ids /\ k = mx + 1).

(** The call that dispatching a record places, if its service is known. *)
Definition delivery_call (bot : Bot) (message : string) (r : Row)
  : option Call :=
  if String.eqb (service r) "pushover"
  then Some (PushoverSend (parameter r) message)
  else if String.eqb (service r) "email"
  then Some (SmtpSendmail (email_address bot) [parameter r]
               (mkMIMEText message
                  ("[" ++ core_nick bot ++ "] " ++ PyStr.take 20 message
                   ++ "...")
                  (email_address bot) (parameter r)))
  else None.

(** Matcher isolation at one message: every record of the dispatch plan
    whose service is known has had its delivery call placed when
    [nick_detect] ends. *)
Definition isolated (bot : Bot) (message : string) (w : World) : Prop :=
  forall r c,
    In r (dispatch_plan message (db w)) ->
    delivery_call bot message r = Some c ->
    In c (calls (snd (nick_detect bot message w))).






(** A command the handlers turn away: sent in a channel, or not by an
    administrator. *)
Definition refused (ev : Event) : Prop :=
  match ev with
  | AddNotification tr | RemoveNotification tr | ListNotifications tr =>
      PyStr.startswith (sender tr) "#" = true \/ admin tr = false
  | Message _ => False
  end.

(** A word without a space character. *)
Fixpoint spaceless (s : string) : bool :=
  match s with
  | EmptyString => true
  | String c s' => (negb (Ascii.eqb c " "%char) && spaceless s')%bool
  end.

(** What [list_notifications] says for a row. *)
Definition listing_line (r : Row) : Out := Say (format_row r).





(** The rows of the table come in strictly increasing order of their id. *)
Definition ids_ascending (t : Table) : Prop :=
  StronglySorted Z.lt (Db.keys pkey t).

Definition Row_eq_dec (r1 r2 : Row) : {r1 = r2} + {r1 <> r2}.
Proof. decide equality; solve [apply Z.eq_dec | apply string_dec]. Defined.

(** ** Scenarios *)

Module Scenario.

(** Every service answers. *)
Definition reachable : Extern :=
  mkExtern (fun _ _ _ => None) (fun _ _ => None) (fun _ _ => None)
           (fun _ _ _ _ => None) (fun word => word) true None.

(** The push service cannot be reached; mail works. *)
Definition push_down : Extern :=
  mkExtern (fun _ _ _ => Some (ServiceError "pushover unreachable"))
           (fun _ _ => None) (fun _ _ => None) (fun _ _ _ _ => None)
           (fun word => word) true None.

(** The push library refuses a request made before [pushover.init]. *)
Definition push_needs_init : Extern :=
  mkExtern (fun token _ _ =>
              match token with
              | None => Some (ServiceError "InitError")
              | Some _ => None
              end)
           (fun _ _ => None) (fun _ _ => None) (fun _ _ _ _ => None)
           (fun word => word) true None.

(** The mail server refuses the connection. *)
Definition mail_down : Extern :=
  mkExtern (fun _ _ _ => None)
           (fun _ _ => Some (ServiceError "connection refused"))
           (fun _ _ => None) (fun _ _ _ _ => None)
           (fun word => word) true None.

(** Push and mail both configured. *)
Definition bot_full : Bot :=
  mkBot "notifydb" (Some "apptoken") (Some "willie@example.com")
        (Some "localhost") (Some "25") None None "willie".

(** Mail configured, no push credentials. *)
Definition bot_mail_only : Bot :=
  mkBot "notifydb" None (Some "willie@example.com")
        (Some "localhost") (Some "25") None None "willie".

Definition alice_and_bob : Table :=
  [mkRow 1 "alice" "pushover" "tokA";
   mkRow 2 "bob" "email" "bob@example.com"].

Definition bob_mail : Table :=
  [mkRow 1 "bob" "email" "bob@example.com"].

Definition bob_push : Table :=
  [mkRow 1 "bob" "pushover" "tokB"].

(** The module after import and [setup]. *)
Definition started (x : Extern) (import_ok : bool) (bot : Bot) (t : Table)
  : World :=
  snd (setup bot (imported x import_ok t)).

End Scenario.

(** * Properties *)

Example lower_ex :
  PyStr.lower "Hey CADAIR, you there?" = "hey cadair, you there?".
Proof. reflexivity. Qed.
Example contains_ex : PyStr.contains "cadair" "cadairable thing" = true.
Proof. reflexivity. Qed.
Example split_ex : PyStr.split_space "a  b c" = ["a"; ""; "b"; "c"].
Proof. reflexivity. Qed.
Example str_ex :
  (PyStr.str_int 0, PyStr.str_int 12, PyStr.str_int (-7)) = ("0", "12", "-7").
Proof. reflexivity. Qed.
Example join_ex : PyStr.join " | " ["1"; "bob"; "email"] = "1 | bob | email".
Proof. reflexivity. Qed.

(** ** Strings *)

Section Strings.

Lemma prefix_app (p s : string) :
  String.prefix p s = true <-> exists after, s = p ++ after.
Proof.
  revert s; induction p as [|c p IH]; intros s; simpl.
  - split; [intros _; now exists s | intros _; now destruct s].
  - destruct s as [|d s]; simpl.
    + split; [discriminate | intros [a H]; discriminate].
    + destruct (ascii_dec c d) as [->|ne].
      * rewrite IH. split; intros [a H]; exists a.
        -- now rewrite H.
        -- now inversion H.
      * split; [discriminate | intros [a H]; inversion H; congruence].
Qed.

Lemma contains_substring (needle hay : string) :
  PyStr.contains needle hay = true
  <-> exists before after, hay = before ++ needle ++ after.
Proof.
  induction hay as [|c hay IH]; cbn [PyStr.contains].
  - destruct (String.prefix needle "") eqn:E.
    + split; [intros _ | reflexivity].
      apply prefix_app in E as [a Ha]. now exists "", a.
    + split; [discriminate|].
      intros [[|b bs] [a H]]; simpl in H; [|discriminate].
      assert (String.prefix needle "" = true) as E'
        by (apply prefix_app; now exists a).
      congruence.
  - destruct (String.prefix needle (String c hay)) eqn:E.
    + split; [intros _ | reflexivity].
      apply prefix_app in E as [a Ha]. now exists "", a.
    + rewrite IH. split.
      * intros (b & a & H). exists (String c b), a. simpl. now rewrite H.
      * intros ([|d b] & a & H); simpl in H.
        -- assert (String.prefix needle (String c hay) = true) as E'
             by (apply prefix_app; now exists a).
           congruence.
        -- inversion H. now exists b, a.
Qed.

Lemma lower_idempotent (s : string) :
  PyStr.lower (PyStr.lower s) = PyStr.lower s.
Proof.
  induction s as [|c s IH]; simpl; [reflexivity|]. rewrite IH. f_equal.
  destruct c as [[] [] [] [] [] [] [] []]; reflexivity.
Qed.

(** Only the lowercased forms count: a nickname is mentioned exactly when
    its lowercased form is. *)
Lemma mentions_lowered_nick (message n : string) :
  mentions message (PyStr.lower n) <-> mentions message n.
Proof. unfold mentions. now rewrite lower_idempotent. Qed.

End Strings.

(** ** Loops and sequencing *)

Local Open Scope list_scope.

Section Loops.

Context {A : Type}.

Lemma for_each_app (xs ys : list A) (body : A -> M unit) (w : World) :
  for_each (xs ++ ys) body w = (for_each xs body ;; for_each ys body) w.
Proof.
  revert w; induction xs as [|x xs IH]; intros w; simpl.
  - reflexivity.
  - unfold bind.
    destruct (body x w) as [[u|e] w']; [apply IH | reflexivity].
Qed.

Lemma for_each_skip (p : A -> bool) (body : A -> M unit) (xs : list A)
      (w : World) :
  for_each xs (fun x => if p x then body x else ret tt) w
  = for_each (filter p xs) body w.
Proof.
  revert w; induction xs as [|x xs IH]; intros w; simpl; [reflexivity|].
  destruct (p x); simpl; unfold bind.
  - destruct (body x w) as [[u|e] w']; [apply IH | reflexivity].
  - simpl. apply IH.
Qed.

(** A loop whose first failing iteration is known stops there. *)
Lemma for_each_raises (before after : list A) (x : A) (body : A -> M unit)
      (w w1 w2 : World) (e : Exn) :
  for_each before body w = (Ok tt, w1) ->
  body x w1 = (Raise e, w2) ->
  for_each (before ++ x :: after) body w = (Raise e, w2).
Proof.
  intros Hb Hx. rewrite for_each_app. unfold bind. rewrite Hb. simpl.
  unfold bind. now rewrite Hx.
Qed.

End Loops.

(** ** What the matcher may change *)

Section Frame.

Lemma keeps_db_ret {A : Type} (a : A) : keeps_db (ret a).
Proof. intros w; reflexivity. Qed.

Lemma keeps_db_gets {A : Type} (f : World -> A) : keeps_db (gets f).
Proof. intros w; reflexivity. Qed.

Lemma keeps_db_bind {A B : Type} (m : M A) (k : A -> M B) :
  keeps_db m -> (forall a, keeps_db (k a)) -> keeps_db (bind m k).
Proof.
  intros Hm Hk w. unfold bind. specialize (Hm w).
  destruct (m w) as [[a|e] w']; simpl in *; [|assumption].
  now rewrite Hk.
Qed.

Lemma keeps_db_for_each {A : Type} (xs : list A) (body : A -> M unit) :
  (forall x, keeps_db (body x)) -> keeps_db (for_each xs body).
Proof.
  intros Hb. induction xs as [|x xs IH]; simpl.
  - apply keeps_db_ret.
  - apply keeps_db_bind; [apply Hb | intros _; exact IH].
Qed.

Lemma with_calls_same (w : World) : with_calls (calls w ++ []) w = w.
Proof. rewrite app_nil_r. now destruct w. Qed.

Lemma delivers_only_unchanged {A : Type} (m : M A) :
  (forall w, snd (m w) = w) -> delivers_only m.
Proof. intros H w. exists []. now rewrite H, with_calls_same. Qed.

Lemma delivers_only_ret {A : Type} (a : A) : delivers_only (ret a).
Proof. now apply delivers_only_unchanged. Qed.

Lemma delivers_only_gets {A : Type} (f : World -> A) : delivers_only (gets f).
Proof. now apply delivers_only_unchanged. Qed.

Lemma delivers_only_bind {A B : Type} (m : M A) (k : A -> M B) :
  delivers_only m -> (forall a, delivers_only (k a)) ->
  delivers_only (bind m k).
Proof.
  intros Hm Hk w. unfold bind. destruct (Hm w) as [c1 H1].
  destruct (m w) as [[a|e] w1]; simpl in H1; [|now exists c1].
  destruct (Hk a w1) as [c2 H2]. exists (c1 ++ c2).
  rewrite H2, H1. unfold with_calls. simpl. now rewrite app_assoc.
Qed.

Lemma delivers_only_for_each {A : Type} (xs : list A) (body : A -> M unit) :
  (forall x, delivers_only (body x)) -> delivers_only (for_each xs body).
Proof.
  intros Hb. induction xs as [|x xs IH]; simpl.
  - apply delivers_only_ret.
  - apply delivers_only_bind; [apply Hb | intros _; exact IH].
Qed.

Lemma delivers_only_keeps_db {A : Type} (m : M A) :
  delivers_only m -> keeps_db m.
Proof. intros H w. destruct (H w) as [cs ->]. reflexivity. Qed.

Lemma delivers_only_notify_pushover bot row message :
  delivers_only (notify_pushover bot row message).
Proof.
  unfold notify_pushover. apply delivers_only_bind.
  - apply delivers_only_unchanged. intros w. unfold global_pushover.
    now destruct (pushover_bound w).
  - intros _ w. simpl. unfold pushover_send_message.
    eexists. now destruct (pushover_request _ _ _ _).
Qed.

Lemma delivers_only_notify_email bot row message :
  delivers_only (notify_email bot row message).
Proof.
  unfold notify_email, SMTP_sendmail. apply delivers_only_bind.
  - apply delivers_only_unchanged. intros w. unfold global_SMTP.
    now destruct (SMTP w).
  - intros s w. eexists. now destruct (smtp_sendmail _ _ _ _ _).
Qed.

Lemma services_deliver_only (name : string) (func : Notifier) :
  dict_get SERVICES name = Some func ->
  forall bot row message, delivers_only (func bot row message).
Proof.
  unfold SERVICES; cbn [dict_get].
  destruct (String.eqb "pushover" name).
  - intros [= <-]. apply delivers_only_notify_pushover.
  - destruct (String.eqb "email" name); [|discriminate].
    intros [= <-]. apply delivers_only_notify_email.
Qed.

Lemma delivers_only_dispatch bot message row :
  delivers_only (dispatch bot message row).
Proof.
  unfold dispatch. destruct (dict_get SERVICES (service row)) eqn:E.
  - now apply (services_deliver_only _ _ E).
  - apply delivers_only_ret.
Qed.

Lemma keeps_db_dispatch bot message row : keeps_db (dispatch bot message row).
Proof. apply delivers_only_keeps_db, delivers_only_dispatch. Qed.

Lemma delivers_only_detect_nick bot message n :
  delivers_only (detect_nick bot message n).
Proof.
  unfold detect_nick. destruct (PyStr.contains _ _).
  - apply delivers_only_bind; [apply delivers_only_gets|].
    intros rows. apply delivers_only_for_each. apply delivers_only_dispatch.
  - apply delivers_only_ret.
Qed.

Lemma delivers_only_nick_detect bot message :
  delivers_only (nick_detect bot message).
Proof.
  unfold nick_detect.
  apply delivers_only_bind; [apply delivers_only_ret|]. intros _.
  apply delivers_only_bind; [apply delivers_only_gets|]. intros nicks.
  apply delivers_only_for_each. apply delivers_only_detect_nick.
Qed.

End Frame.

(** ** The matcher as one loop over its dispatch plan *)

Section Plan.

Variables (bot : Bot) (message : string).

Lemma detect_nick_records (n : string) (w : World) :
  detect_nick bot message n w
  = (if PyStr.contains (PyStr.lower n) (PyStr.lower message)
     then dispatch_records bot message n else ret tt) w.
Proof. reflexivity. Qed.

Lemma nick_detect_filter (w : World) :
  nick_detect bot message w
  = for_each
      (filter (fun n => PyStr.contains (PyStr.lower n) (PyStr.lower message))
              (Db.keys nick (db w)))
      (dispatch_records bot message) w.
Proof.
  unfold nick_detect, get_notifydb, notifydb_keys.
  unfold bind at 1 2. simpl.
  now rewrite <- for_each_skip.
Qed.

Lemma for_each_records_plan (nicks : list string) (w : World) :
  for_each nicks (dispatch_records bot message) w
  = for_each
      (flat_map (fun n => Db.select (fun r => String.eqb (nick r) n) (db w))
                nicks)
      (dispatch bot message) w.
Proof.
  revert w; induction nicks as [|n nicks IH]; intros w; [reflexivity|].
  cbn [for_each flat_map]. rewrite for_each_app.
  unfold bind. unfold dispatch_records at 1. unfold bind, sql_select, gets.
  pose proof (keeps_db_for_each
                (Db.select (fun r => String.eqb (nick r) n) (db w))
                (dispatch bot message) (keeps_db_dispatch bot message) w)
    as Hdb.
  destruct (for_each _ (dispatch bot message) w) as [[u|e] w'];
    [|reflexivity].
  simpl in Hdb. rewrite IH, Hdb. reflexivity.
Qed.

Lemma nick_detect_plan (w : World) :
  nick_detect bot message w
  = for_each (dispatch_plan message (db w)) (dispatch bot message) w.
Proof. rewrite nick_detect_filter. apply for_each_records_plan. Qed.

End Plan.

(** ** Mention matching *)

Example mentions_upper_case : mentions "Hey CADAIR, you there?" "cadair".
Proof. apply contains_substring. reflexivity. Qed.

Example mentions_inside_word : mentions "cadairable thing" "cadair".
Proof. apply contains_substring. reflexivity. Qed.

Example no_mention : ~ mentions "nobody here" "cadair".
Proof. intros H. apply contains_substring in H. discriminate. Qed.

(** ** The matcher and the table *)

(** C10.  Processing an inbound message never modifies the subscription
    table: its rows after [nick_detect] are the rows before it, whatever
    the deliveries do.  All [nick_detect] changes in the world is the list
    of delivery calls, which it extends. *)
Theorem nick_detect_leaves_table (bot : Bot) (message : string) (w : World) :
  db (snd (nick_detect bot message w)) = db w
  /\ exists cs,
       snd (nick_detect bot message w) = with_calls (calls w ++ cs) w.
Proof.
  pose proof (delivers_only_nick_detect bot message w) as [cs Hcs].
  split; [|now exists cs].
  rewrite Hcs. reflexivity.
Qed.

(** ** Delivery failures *)

(** C2 as stated fails: with the push service down, the
    failure of alice's push ends [nick_detect], and bob's mail, which the
    same message calls for, is never sent. *)
Lemma isolation_counterexample :
  ~ isolated Scenario.bot_full "alice and bob"
      (Scenario.started Scenario.push_down true Scenario.bot_full
                        Scenario.alice_and_bob).
Proof.
  intros H.
  pose (r := mkRow 2 "bob" "email" "bob@example.com").
  pose (c := SmtpSendmail (Some "willie@example.com") ["bob@example.com"]
               (mkMIMEText "alice and bob" "[willie] alice and bob..."
                  (Some "willie@example.com") "bob@example.com")).
  assert (In r (dispatch_plan "alice and bob" Scenario.alice_and_bob)) as Hr
    by (right; left; reflexivity).
  specialize (H r c Hr eq_refl).
  vm_compute in H.
  destruct H as [H|[]]. discriminate H.
Qed.

(** C2, amended.  [nick_detect] catches nothing: when dispatching a record
    of the plan raises, the exception leaves [nick_detect] at once; the
    records before it have been dispatched, those after it are not. *)
Theorem delivery_failure_ends_matcher (bot : Bot) (message : string)
    (w w1 w2 : World) (before after : list Row) (r : Row) (e : Exn) :
  dispatch_plan message (db w) = before ++ r :: after ->
  for_each before (dispatch bot message) w = (Ok tt, w1) ->
  dispatch bot message r w1 = (Raise e, w2) ->
  nick_detect bot message w = (Raise e, w2).
Proof.
  intros Hplan Hbefore Hr.
  rewrite nick_detect_plan, Hplan.
  now apply for_each_raises with (w1 := w1).
Qed.

Lemma delivery_failure_ends_matcher_witness :
  let bot := Scenario.bot_full in
  let w := Scenario.started Scenario.push_down true bot
                            Scenario.alice_and_bob in
  let w2 := with_calls [PushoverSend "tokA" "alice and bob"] w in
  dispatch_plan "alice and bob" (db w)
  = [] ++ mkRow 1 "alice" "pushover" "tokA"
       :: [mkRow 2 "bob" "email" "bob@example.com"]
  /\ nick_detect bot "alice and bob" w
     = (Raise (ServiceError "pushover unreachable"), w2).
Proof.
  intros bot w w2. split; [reflexivity|].
  apply (delivery_failure_ends_matcher bot "alice and bob" w w w2 []
           [mkRow 2 "bob" "email" "bob@example.com"]
           (mkRow 1 "alice" "pushover" "tokA")); reflexivity.
Defined.

(** ** Keys of the table *)

Section Keys.

Lemma py_max_ge_init (k : Z) (ks : list Z) : k <= py_max k ks.
Proof.
  unfold py_max. revert k; induction ks as [|j ks IH]; intros k; simpl.
  - lia.
  - specialize (IH (Z.max k j)). lia.
Qed.

Lemma py_max_upper (k : Z) (ks : list Z) :
  Forall (fun j => j <= py_max k ks) (k :: ks).
Proof.
  constructor; [apply py_max_ge_init|].
  unfold py_max. revert k; induction ks as [|j ks IH]; intros k; simpl.
  - constructor.
  - constructor.
    + pose proof (py_max_ge_init (Z.max k j) ks) as H. unfold py_max in H. lia.
    + apply IH.
Qed.

Lemma py_max_in (k : Z) (ks : list Z) : In (py_max k ks) (k :: ks).
Proof.
  unfold py_max. revert k; induction ks as [|j ks IH]; intros k; simpl.
  - now left.
  - destruct (IH (Z.max k j)) as [H|H].
    + rewrite <- H. destruct (Z.max_spec k j) as [[_ E]|[_ E]]; rewrite E; auto.
    + auto.
Qed.

Lemma next_pkey_is_next (t : Table) :
  is_next_id (Db.keys pkey t) (next_pkey t).
Proof.
  unfold next_pkey. destruct (Db.keys pkey t) as [|k ks].
  - now left.
  - right. exists (py_max k ks).
    split; [apply py_max_in | split; [apply py_max_upper | reflexivity]].
Qed.

Lemma next_pkey_above (t : Table) :
  Forall (fun k => k < next_pkey t) (Db.keys pkey t).
Proof.
  unfold next_pkey. destruct (Db.keys pkey t) as [|k ks]; [constructor|].
  eapply Forall_impl; [|apply py_max_upper]. simpl. intros; lia.
Qed.

Lemma is_next_id_above (ids : list Z) (k : Z) :
  is_next_id ids k -> Forall (fun j => j < k) ids.
Proof.
  intros [[-> _]|(mx & _ & Hup & ->)]; [constructor|].
  eapply Forall_impl; [|exact Hup]. simpl. intros; lia.
Qed.

Lemma insert_above (r : Row) (t : Table) :
  Forall (fun k => k < pkey r) (Db.keys pkey t) ->
  Db.insert r t = Some (t ++ [r]).
Proof.
  intros H. unfold Db.insert.
  replace (existsb (fun r' => pkey r' =? pkey r) t) with false; [reflexivity|].
  symmetry. apply not_true_is_false. intros E.
  apply existsb_exists in E as (r' & Hin & Heq).
  apply Z.eqb_eq in Heq.
  rewrite Forall_forall in H.
  specialize (H (pkey r') (in_map pkey _ _ Hin)). lia.
Qed.

Lemma keys_unique_insert (r : Row) (t : Table) :
  Db.keys_unique t ->
  Forall (fun k => k < pkey r) (Db.keys pkey t) ->
  Db.keys_unique (t ++ [r]).
Proof.
  unfold Db.keys_unique, Db.keys. intros Hnd Hlt. rewrite map_app. simpl.
  apply NoDup_app; [exact Hnd | repeat constructor; intros [] |].
  intros k Hk [<-|[]]. rewrite Forall_forall in Hlt.
  specialize (Hlt _ Hk). lia.
Qed.

Lemma keys_unique_filter (f : Row -> bool) (t : Table) :
  Db.keys_unique t -> Db.keys_unique (filter f t).
Proof.
  unfold Db.keys_unique, Db.keys.
  induction t as [|r t IH]; simpl; intros Hnd; [constructor|].
  inversion Hnd as [|? ? Hnotin Hnd']; subst.
  destruct (f r); simpl; [constructor|]; auto.
  intros Hin. apply Hnotin. apply in_map_iff in Hin as (r' & E & Hin).
  apply filter_In in Hin as [Hin _]. rewrite <- E. now apply in_map.
Qed.

Lemma keys_unique_same_row (t : Table) (r1 r2 : Row) :
  Db.keys_unique t -> In r1 t -> In r2 t -> pkey r1 = pkey r2 -> r1 = r2.
Proof.
  unfold Db.keys_unique, Db.keys.
  induction t as [|r t IH]; simpl; intros Hnd H1 H2 E; [contradiction|].
  inversion Hnd as [|? ? Hnotin Hnd']; subst.
  destruct H1 as [->|H1], H2 as [->|H2]; auto.
  - exfalso. apply Hnotin. rewrite E. now apply in_map.
  - exfalso. apply Hnotin. rewrite <- E. now apply in_map.
Qed.

Lemma filter_all (t : Table) : filter (fun _ => true) t = t.
Proof. induction t as [|r t IH]; simpl; [reflexivity | now rewrite IH]. Qed.

(** Deleting by key, one selected row after the other. *)
Lemma delete_each (cursor : list Row) (t : Table) :
  fold_left (fun t' row => Db.delete (fun r => pkey r =? pkey row) t')
            cursor t
  = filter (fun r => negb (existsb (fun row => pkey r =? pkey row) cursor)) t.
Proof.
  revert t; induction cursor as [|row cursor IH]; intros t; simpl.
  - now rewrite filter_all.
  - rewrite IH. unfold Db.delete.
    induction t as [|r t IHt]; simpl; [reflexivity|].
    destruct (pkey r =? pkey row); simpl; [exact IHt|].
    destruct (existsb _ cursor); simpl; [exact IHt | now rewrite IHt].
Qed.

(** With unique keys, deleting the selected rows by key removes the
    selected rows and nothing else. *)
Lemma delete_selected (f : Row -> bool) (t : Table) :
  Db.keys_unique t ->
  filter (fun r => negb (existsb (fun row => pkey r =? pkey row)
                                 (Db.select f t))) t
  = filter (fun r => negb (f r)) t.
Proof.
  intros Hnd. apply filter_ext_in. intros r Hr. f_equal.
  destruct (f r) eqn:Ef.
  - apply existsb_exists. exists r. split; [|apply Z.eqb_refl].
    apply filter_In. now split.
  - apply not_true_is_false. intros E.
    apply existsb_exists in E as (row & Hrow & Heq).
    apply filter_In in Hrow as [Hin Hf]. apply Z.eqb_eq in Heq.
    rewrite (keys_unique_same_row t r row Hnd Hr Hin Heq) in Ef. congruence.
Qed.

End Keys.

(** ** The command handlers, step by step *)

Section Handlers.

Variable bot : Bot.

Lemma get_new_pkey_returns (w : World) :
  get_new_pkey w = (Ok (next_pkey (db w)), w).
Proof.
  unfold get_new_pkey, notifydb_keys, bind, gets, next_pkey.
  now destruct (Db.keys pkey (db w)).
Qed.

Lemma unpack_args_names (tr : Trigger) (n s p : string) (w : World) :
  names tr n s p -> unpack_args tr w = (Ok (n, s, p), w).
Proof.
  intros (text & Hg & Hs). unfold unpack_args. now rewrite Hg, Hs.
Qed.

(** A request that is refused or malformed leaves the world's table alone;
    otherwise the arguments are the three words of the text. *)
Lemma unpack_args_cases (tr : Trigger) (w : World) :
  (exists e, unpack_args tr w = (Raise e, w))
  \/ (exists n s p, names tr n s p /\ unpack_args tr w = (Ok (n, s, p), w)).
Proof.
  unfold unpack_args, names. destruct (group2 tr) as [text|].
  - destruct (PyStr.split_space text) as [|a [|b [|c [|d l]]]] eqn:E;
      try (left; eexists; reflexivity).
    right. exists a, b, c. split; [|reflexivity]. now exists text.
  - left; eexists; reflexivity.
Qed.

Lemma add_notification_accepted (tr : Trigger) (n s p : string) (w : World) :
  authorized tr -> names tr n s p ->
  add_notification bot tr w
  = (Ok tt,
     with_said (said w ++ [Reply ("We will now notify '" ++ n ++ "' using '"
                                  ++ s ++ "' with '" ++ p ++ "'")])
       (with_db (db w ++ [mkRow (next_pkey (db w)) (stored w n) (stored w s)
                                (stored w p)]) w)).
Proof.
  intros [Hs Ha] Hn. unfold add_notification. rewrite Hs, Ha. simpl.
  unfold bind, get_notifydb, ret.
  rewrite (unpack_args_names _ _ _ _ _ Hn), get_new_pkey_returns.
  unfold add_new_notify, sql_insert, bind, sql_cell, gets.
  fold (stored w n) (stored w s) (stored w p).
  rewrite insert_above by apply next_pkey_above.
  reflexivity.
Qed.

(** Whatever the trigger, [add_notification] either leaves the table as it
    is or appends one row whose key is [next_pkey]. *)
Lemma add_notification_db (tr : Trigger) (w : World) :
  db (snd (add_notification bot tr w)) = db w
  \/ exists n s p,
       db (snd (add_notification bot tr w))
       = db w ++ [mkRow (next_pkey (db w)) n s p].
Proof.
  unfold add_notification.
  destruct (PyStr.startswith (sender tr) "#") eqn:Hs; [now left|].
  destruct (admin tr) eqn:Ha; simpl; [|now left].
  destruct (unpack_args_cases tr w) as [[e He]|(n & s & p & Hn & _)].
  - left. unfold bind, get_notifydb, ret. now rewrite He.
  - right. exists (stored w n), (stored w s), (stored w p).
    pose proof (add_notification_accepted tr n s p w (conj Hs Ha) Hn) as H.
    unfold add_notification in H. rewrite Hs, Ha in H. simpl in H.
    now rewrite H.
Qed.

Lemma remove_loop (cursor : list Row) (w : World) :
  for_each cursor
    (fun row => bot_reply ("Removing " ++ format_row row) ;;
                sql_delete (fun r => pkey r =? pkey row)) w
  = (Ok tt,
     with_said (said w ++ map removal_echo cursor)
       (with_db (fold_left
                   (fun t row => Db.delete (fun r => pkey r =? pkey row) t)
                   cursor (db w)) w)).
Proof.
  revert w; induction cursor as [|row cursor IH]; intros w; simpl.
  - unfold ret, with_said, with_db. simpl. rewrite app_nil_r. now destruct w.
  - unfold bind at 1. unfold bind, bot_reply, sql_delete, modify. simpl.
    rewrite IH. unfold with_said, with_db. simpl.
    now rewrite <- app_assoc.
Qed.

Lemma remove_notification_accepted (tr : Trigger) (n s p : string)
      (w : World) :
  authorized tr -> names tr n s p ->
  let cursor :=
    Db.select (same_tuple (stored w n) (stored w s) (stored w p)) (db w) in
  remove_notification bot tr w
  = (Ok tt,
     with_said (said w ++ map removal_echo cursor)
       (with_db
          (filter (fun r => negb (existsb (fun row => pkey r =? pkey row)
                                          cursor)) (db w)) w)).
Proof.
  intros [Hs Ha] Hn cursor. unfold remove_notification. rewrite Hs, Ha. simpl.
  unfold bind at 1. rewrite (unpack_args_names _ _ _ _ _ Hn).
  unfold bind at 1 2 3 4. unfold sql_cell, sql_select, gets.
  fold (stored w n) (stored w s) (stored w p).
  change (Db.select _ (db w)) with cursor.
  now rewrite remove_loop, delete_each.
Qed.

(** Whatever the trigger, [remove_notification] leaves a selection of the
    rows that were there. *)
Lemma remove_notification_db (tr : Trigger) (w : World) :
  exists f, db (snd (remove_notification bot tr w)) = filter f (db w).
Proof.
  assert (db w = filter (fun _ => true) (db w)) as Hid
    by (now rewrite filter_all).
  unfold remove_notification.
  destruct (PyStr.startswith (sender tr) "#") eqn:Hs;
    [exists (fun _ => true); exact Hid|].
  destruct (admin tr) eqn:Ha; simpl; [|exists (fun _ => true); exact Hid].
  destruct (unpack_args_cases tr w) as [[e He]|(n & s & p & Hn & _)].
  - exists (fun _ => true). unfold bind at 1. rewrite He. exact Hid.
  - pose proof (remove_notification_accepted tr n s p w (conj Hs Ha) Hn) as H.
    unfold remove_notification in H. rewrite Hs, Ha in H. simpl in H.
    rewrite H. eexists. reflexivity.
Qed.

Lemma keeps_db_list_notifications (tr : Trigger) :
  keeps_db (list_notifications bot tr).
Proof.
  unfold list_notifications.
  destruct (PyStr.startswith _ _); [apply keeps_db_ret|].
  destruct (negb _); [apply keeps_db_ret|].
  apply keeps_db_bind; [apply keeps_db_gets|]. intros rows.
  apply keeps_db_for_each. intros row w. reflexivity.
Qed.

(** Every handler keeps the keys of the table distinct. *)
Lemma handle_keys_unique (ev : Event) (w : World) :
  Db.keys_unique (db w) -> Db.keys_unique (db (snd (handle bot ev w))).
Proof.
  intros Hu. destruct ev as [tr|tr|tr|text]; simpl.
  - destruct (add_notification_db tr w) as [->|(n & s & p & ->)]; [exact Hu|].
    apply keys_unique_insert; [exact Hu | apply next_pkey_above].
  - destruct (remove_notification_db tr w) as [f ->].
    now apply keys_unique_filter.
  - now rewrite keeps_db_list_notifications.
  - pose proof (delivers_only_nick_detect bot text) as Hd.
    now rewrite (delivers_only_keeps_db _ Hd).
Qed.

Lemma history_keys_unique (evs : list Event) (w : World) :
  Db.keys_unique (db w) ->
  Forall (fun w' => Db.keys_unique (db w')) (history bot evs w).
Proof.
  revert w; induction evs as [|ev evs IH]; intros w Hu; simpl.
  - now constructor.
  - constructor; [exact Hu|]. apply IH. now apply handle_keys_unique.
Qed.

End Handlers.

(** ** Assigning ids *)

(** C3.  In a sequence of accepted add commands run one after the other
    from any table, the table grows by one row per command; the id of each
    new row is one more than the largest id in the table at that moment
    (1 for an empty table), and the assigned ids are strictly increasing,
    hence distinct, and larger than every id present at the start. *)
Theorem add_sequence_ids (bot : Bot) (triggers : list Trigger) (w : World) :
  Forall (fun tr => authorized tr /\ exists n s p, names tr n s p) triggers ->
  exists rows : list Row,
    List.length rows = List.length triggers
    /\ (forall i,
          db (run bot (map AddNotification (firstn i triggers)) w)
          = db w ++ firstn i rows)
    /\ db (run bot (map AddNotification triggers) w) = db w ++ rows
    /\ (forall i r,
          nth_error rows i = Some r ->
          is_next_id (Db.keys pkey (db w ++ firstn i rows)) (pkey r))
    /\ StronglySorted Z.lt (Db.keys pkey rows)
    /\ (forall k k0,
          In k (Db.keys pkey rows) -> In k0 (Db.keys pkey (db w)) -> k0 < k).
Proof.
  revert w; induction triggers as [|tr trs IH]; intros w Hacc.
  - exists []. simpl. repeat split.
    + intros i. destruct i; simpl; now rewrite app_nil_r.
    + now rewrite app_nil_r.
    + intros i r H. destruct i; discriminate H.
    + constructor.
    + intros k k0 [].
  - inversion Hacc as [|? ? [Hauth (n & s & p & Hn)] Hrest]; subst.
    pose (r0 := mkRow (next_pkey (db w)) (stored w n) (stored w s)
                      (stored w p)).
    pose (w1 := snd (add_notification bot tr w)).
    assert (db w1 = db w ++ [r0]) as Hw1
      by (unfold w1; now rewrite (add_notification_accepted bot tr n s p w)).
    destruct (IH w1 Hrest) as (rows & Hlen & Hpre & Hall & Hnext & Hsort & Hgt).
    exists (r0 :: rows). simpl. repeat split.
    + now rewrite Hlen.
    + intros [|i]; simpl; [now rewrite app_nil_r|].
      fold w1. rewrite Hpre, Hw1, <- app_assoc. reflexivity.
    + fold w1. rewrite Hall, Hw1, <- app_assoc. reflexivity.
    + intros [|i] r Hr; simpl in Hr.
      * injection Hr as <-. simpl. rewrite app_nil_r. apply next_pkey_is_next.
      * specialize (Hnext i r Hr).
        rewrite Hw1, <- app_assoc in Hnext. exact Hnext.
    + constructor; [exact Hsort|].
      apply Forall_forall. intros k Hk. apply (Hgt k (pkey r0) Hk).
      rewrite Hw1. unfold Db.keys. rewrite map_app. apply in_or_app.
      right. now left.
    + intros k k0 [<-|Hk] Hk0.
      * pose proof (next_pkey_above (db w)) as Hab.
        rewrite Forall_forall in Hab. exact (Hab k0 Hk0).
      * apply (Hgt k k0 Hk). rewrite Hw1. unfold Db.keys.
        rewrite map_app. apply in_or_app. now left.
Qed.

Lemma add_sequence_ids_witness :
  let triggers := [admin_command "alice" "pushover" "tok1";
                   admin_command "bob" "email" "bob@example.com"] in
  let w := imported Scenario.reachable true
             [mkRow 4 "carol" "email" "carol@example.com"] in
  Forall (fun tr => authorized tr /\ exists n s p, names tr n s p) triggers
  /\ exists rows : list Row,
       db (run Scenario.bot_full (map AddNotification triggers) w)
       = db w ++ rows
       /\ StronglySorted Z.lt (Db.keys pkey rows).
Proof.
  intros triggers w.
  assert (Forall (fun tr => authorized tr /\ exists n s p, names tr n s p)
                 triggers) as Hacc.
  { repeat constructor.
    - exists "alice", "pushover", "tok1". eexists. split; reflexivity.
    - exists "bob", "email", "bob@example.com". eexists. split; reflexivity. }
  split; [exact Hacc|].
  destruct (add_sequence_ids Scenario.bot_full triggers w Hacc)
    as (rows & _ & _ & Hall & _ & Hsort & _).
  exists rows. split; assumption.
Defined.

(** C4 as stated fails: after two adds, removing the
    second record and adding a third gives the third record the id the
    second one had. *)
Lemma id_reuse_counterexample :
  ~ ids_never_reused Scenario.bot_full
      [AddNotification (admin_command "alice" "pushover" "tok1");
       AddNotification (admin_command "bob" "email" "bob@example.com");
       RemoveNotification (admin_command "bob" "email" "bob@example.com");
       AddNotification (admin_command "carol" "email" "carol@example.com")]
      (imported Scenario.reachable true []).
Proof.
  intros H.
  set (evs := [AddNotification _; _; _; _]) in H.
  set (w0 := imported Scenario.reachable true []) in H.
  pose (w2 := run Scenario.bot_full (firstn 2 evs) w0).
  pose (w4 := run Scenario.bot_full evs w0).
  assert (mkRow 2 "bob" "email" "bob@example.com"
          = mkRow 2 "carol" "email" "carol@example.com") as E.
  { apply (H w2 w4).
    - right; right; left; reflexivity.
    - right; right; right; right; left; reflexivity.
    - right; left; reflexivity.
    - right; left; reflexivity.
    - reflexivity. }
  discriminate E.
Qed.

(** C4, amended.  Over any sequence of events the ids of the stored
    records stay distinct, and an add never assigns an id held by a record
    stored at that moment: the new id is larger than all of them.  (The id
    of a removed record can be assigned again.) *)
Theorem stored_ids_stay_distinct (bot : Bot) (evs : list Event) (w : World) :
  Db.keys_unique (db w) ->
  Forall (fun w' => Db.keys_unique (db w')) (history bot evs w)
  /\ (forall tr w',
        db (snd (add_notification bot tr w')) = db w'
        \/ exists r,
             db (snd (add_notification bot tr w')) = db w' ++ [r]
             /\ Forall (fun k => k < pkey r) (Db.keys pkey (db w'))).
Proof.
  intros Hu. split; [now apply history_keys_unique|].
  intros tr w'.
  destruct (add_notification_db bot tr w') as [H|(n & s & p & H)];
    [now left|right].
  eexists. split; [exact H|]. apply next_pkey_above.
Qed.

Lemma stored_ids_stay_distinct_witness :
  let evs :=
    [AddNotification (admin_command "alice" "pushover" "tok1");
     AddNotification (admin_command "bob" "email" "bob@example.com");
     RemoveNotification (admin_command "bob" "email" "bob@example.com");
     AddNotification (admin_command "carol" "email" "carol@example.com")] in
  let w := imported Scenario.reachable true [] in
  Db.keys_unique (db w)
  /\ Forall (fun w' => Db.keys_unique (db w'))
            (history Scenario.bot_full evs w).
Proof.
  intros evs w.
  assert (Db.keys_unique (db w)) as Hu by constructor.
  split; [exact Hu|].
  exact (proj1 (stored_ids_stay_distinct Scenario.bot_full evs w Hu)).
Defined.

(** ** Removing records *)


(** C7 at its failing input.  A record added with the parameter [123] is
    deleted, and echoed, by the remove of the parameter [0123]: the tuple of
    the command is not the tuple of the record, yet the columns, declared
    [string], compare the two as numbers. *)
Lemma remove_deletes_other_tuple :
  let bot := Scenario.bot_full in
  let w0 := imported Scenario.reachable true [] in
  let w1 := snd (add_notification bot
                   (admin_command "bob" "pushover" "123") w0) in
  let w2 := snd (remove_notification bot
                   (admin_command "bob" "pushover" "0123") w1) in
  db w1 = [mkRow 1 "bob" "pushover" "123"]
  /\ same_tuple "bob" "pushover" "0123" (mkRow 1 "bob" "pushover" "123")
     = false
  /\ db w2 = []
  /\ said w2 = said w1 ++ [Reply "Removing 1 | bob | pushover | 123"].
Proof.
  cbv zeta. split; [|split; [|split]]; vm_compute; reflexivity.
Qed.

(** C8 at its failing input.  No stored record carries the tuple
    (alice, pushover, 042), yet its remove is not a no-op: it echoes and
    deletes the record stored from (alice, pushover, 42) and so changes the
    table. *)
Lemma remove_of_absent_tuple_deletes :
  let bot := Scenario.bot_full in
  let w0 := imported Scenario.reachable true [] in
  let w1 := run bot
              [AddNotification (admin_command "alice" "pushover" "42");
               AddNotification (admin_command "bob" "email" "bob@example.com")]
              w0 in
  let out := remove_notification bot
               (admin_command "alice" "pushover" "042") w1 in
  Db.select (same_tuple "alice" "pushover" "042") (db w1) = []
  /\ fst out = Ok tt
  /\ db (snd out) = [mkRow 2 "bob" "email" "bob@example.com"]
  /\ said (snd out)
     = said w1 ++ [Reply "Removing 1 | alice | pushover | 42"]
  /\ snd out <> w1.
Proof.
  cbv zeta. split; [|split; [|split; [|split]]];
    try (vm_compute; reflexivity).
  intros H. apply (f_equal db) in H. vm_compute in H. discriminate H.
Qed.



(** X19.  An accepted remove whose words are ASCII without a quote and
    denote cells that no record carries is not an error: nothing is echoed
    and the whole state is left as it was; in particular a removal repeated
    right after itself changes nothing. *)
Theorem remove_without_stored_match (bot : Bot) (tr : Trigger)
    (n s p : string) (w : World) :
  authorized tr -> names tr n s p ->
  Sql.literal_safe n = true -> Sql.literal_safe s = true ->
  Sql.literal_safe p = true ->
  (Db.select (same_tuple (stored w n) (stored w s) (stored w p)) (db w) = []
   -> remove_notification bot tr w = (Ok tt, w))
  /\ (let w' := snd (remove_notification bot tr w) in
      Db.select (same_tuple (stored w n) (stored w s) (stored w p)) (db w')
      = []
      /\ remove_notification bot tr w' = (Ok tt, w')).
Proof.
  intros Hauth Hn _ _ _.
  assert (forall w0,
             Db.select (same_tuple (stored w0 n) (stored w0 s) (stored w0 p))
                       (db w0) = [] ->
             remove_notification bot tr w0 = (Ok tt, w0)) as Hnone.
  { intros w0 Hempty.
    rewrite (remove_notification_accepted bot tr n s p w0 Hauth Hn).
    rewrite Hempty. simpl. unfold with_said, with_db. simpl.
    rewrite app_nil_r.
    rewrite filter_all. now destruct w0. }
  split; [apply Hnone|].
  intros w'.
  set (f := same_tuple (stored w n) (stored w s) (stored w p)).
  assert (ext w' = ext w /\ db w' = filter (fun r0 => negb (existsb
                       (fun row => pkey r0 =? pkey row)
                       (filter f (db w)))) (db w)) as [Hext Hdb].
  { unfold w'. rewrite (remove_notification_accepted bot tr n s p w Hauth Hn).
    split; reflexivity. }
  assert (Db.select f (db w') = []) as Hempty.
  { rewrite Hdb. unfold Db.select.
    set (t' := filter (fun r0 => negb _) (db w)).
    destruct (filter f t') as [|r l] eqn:E; [reflexivity|].
    exfalso.
    assert (In r (filter f t')) as Hin by (rewrite E; now left).
    apply filter_In in Hin as [Hin Hf]. unfold t' in Hin.
    apply filter_In in Hin as [Hin Hneg].
    apply negb_true_iff in Hneg.
    assert (existsb (fun row => pkey r =? pkey row)
                    (filter f (db w)) = true) as Hex.
    { apply existsb_exists. exists r. split; [|apply Z.eqb_refl].
      apply filter_In. now split. }
    congruence. }
  split; [exact Hempty|]. apply Hnone.
  unfold stored. rewrite Hext. exact Hempty.
Qed.

Lemma remove_without_stored_match_witness :
  let tr := admin_command "dave" "email" "dave@example.com" in
  let w := imported Scenario.reachable true Scenario.alice_and_bob in
  (authorized tr /\ names tr "dave" "email" "dave@example.com"
   /\ Sql.literal_safe "dave" = true /\ Sql.literal_safe "email" = true
   /\ Sql.literal_safe "dave@example.com" = true)
  /\ remove_notification Scenario.bot_full tr w = (Ok tt, w).
Proof.
  intros tr w.
  assert (authorized tr) as Hauth by (split; reflexivity).
  assert (names tr "dave" "email" "dave@example.com") as Hn
    by (eexists; split; reflexivity).
  split; [now repeat split|].
  apply (proj1 (remove_without_stored_match Scenario.bot_full tr
                  "dave" "email" "dave@example.com" w Hauth Hn
                  eq_refl eq_refl eq_refl)).
  reflexivity.
Defined.

(** ** Composing the mail *)

Lemma take_prefix (k : nat) (s : string) :
  exists rest, s = (PyStr.take k s ++ rest)%string.
Proof.
  revert s; induction k as [|k IH]; intros s; simpl.
  - now exists s.
  - destruct s as [|c s]; [now exists ""%string|].
    destruct (IH s) as [rest H]. exists rest. simpl. now rewrite <- H.
Qed.

Lemma take_length (k : nat) (s : string) :
  String.length (PyStr.take k s) = Nat.min k (String.length s).
Proof.
  revert s; induction k as [|k IH]; intros s; simpl; [reflexivity|].
  destruct s as [|c s]; simpl; [reflexivity | now rewrite IH].
Qed.

(** C9.  Every mail [notify_email] sends for a message [m] to a record with
    parameter [p] has the subject "[<bot nick>] " followed by the first 20
    characters of [m] followed by "...", the configured address as sender
    and [p] as its one recipient. *)
Theorem email_composition (bot : Bot) (row : Row) (m : string) (w : World)
    (session : Session) :
  SMTP w = Some session ->
  exists msg excerpt rest,
    calls (snd (notify_email bot row m w))
    = calls w ++ [SmtpSendmail (email_address bot) [parameter row] msg]
    /\ Subject msg = ("[" ++ core_nick bot ++ "] " ++ excerpt ++ "...")%string
    /\ m = (excerpt ++ rest)%string
    /\ String.length excerpt = Nat.min 20 (String.length m)
    /\ From msg = email_address bot
    /\ To msg = parameter row
    /\ payload msg = m.
Proof.
  intros Hs. destruct (take_prefix 20 m) as [rest Hrest].
  exists (mkMIMEText m
            ("[" ++ core_nick bot ++ "] " ++ PyStr.take 20 m ++ "...")
            (email_address bot) (parameter row)),
         (PyStr.take 20 m), rest.
  split.
  { unfold notify_email, SMTP_sendmail, bind, global_SMTP. rewrite Hs.
    destruct (smtp_sendmail _ _ _ _ _); reflexivity. }
  split; [reflexivity|]. split; [exact Hrest|].
  split; [apply take_length|]. repeat split.
Qed.

Lemma email_composition_witness :
  let bot := Scenario.bot_full in
  let w := Scenario.started Scenario.reachable true bot Scenario.bob_mail in
  SMTP w = Some (mkSession (Some "localhost") (Some "25") None)
  /\ calls (snd (nick_detect bot "bob check this out" w))
     = [SmtpSendmail (Some "willie@example.com") ["bob@example.com"]
          (mkMIMEText "bob check this out" "[willie] bob check this out..."
             (Some "willie@example.com") "bob@example.com")]
  /\ exists msg excerpt rest,
       calls (snd (notify_email bot (mkRow 1 "bob" "email" "bob@example.com")
                     "bob check this out" w))
       = calls w ++ [SmtpSendmail (email_address bot) ["bob@example.com"] msg]
       /\ Subject msg = ("[willie] " ++ excerpt ++ "...")%string
       /\ "bob check this out"%string = (excerpt ++ rest)%string.
Proof.
  intros bot w. split; [reflexivity|]. split; [reflexivity|].
  destruct (email_composition bot (mkRow 1 "bob" "email" "bob@example.com")
              "bob check this out" w _ eq_refl)
    as (msg & excerpt & rest & Hcalls & Hsubj & Hm & _).
  exists msg, excerpt, rest. repeat split; assumption.
Defined.

(** ** Services the dispatcher does not know *)

Lemma unknown_service_inert (bot : Bot) (m : string) (r : Row) (w : World) :
  dict_get SERVICES (service r) = None -> dispatch bot m r w = (Ok tt, w).
Proof. intros H. unfold dispatch. now rewrite H. Qed.

Lemma known_services (name : string) :
  dict_get SERVICES name <> None
  <-> name = "pushover"%string \/ name = "email"%string.
Proof.
  unfold SERVICES; cbn [dict_get].
  destruct (String.eqb_spec "pushover" name) as [<-|Hp].
  - split; [now left | discriminate].
  - destruct (String.eqb_spec "email" name) as [<-|He].
    + split; [now right | discriminate].
    + split; [congruence | intros [->| ->]; congruence].
Qed.

(** C5 at its failing input.  Two records for "bob", one for mail and one
    for a service [SERVICES] does not hold: [add_notification] stores the
    unknown one like any other, and with every service answering
    [nick_detect] returns without error, but it has sent bob's mail twice:
    the nick column lists "bob" once per record, and each listing
    dispatches all of bob's records. *)
Lemma same_nick_delivered_twice :
  let bot := Scenario.bot_full in
  let w0 := Scenario.started Scenario.reachable true bot Scenario.bob_mail in
  let w := snd (add_notification bot
                  (admin_command "bob" "carrier-pigeon" "loft_7") w0) in
  let mail := SmtpSendmail (Some "willie@example.com") ["bob@example.com"]
                (mkMIMEText "bob check this out"
                   "[willie] bob check this out..."
                   (Some "willie@example.com") "bob@example.com") in
  db w = [mkRow 1 "bob" "email" "bob@example.com";
          mkRow 2 "bob" "carrier-pigeon" "loft_7"]
  /\ dict_get SERVICES "carrier-pigeon" = None
  /\ dispatch bot "bob check this out"
       (mkRow 2 "bob" "carrier-pigeon" "loft_7") w = (Ok tt, w)
  /\ nick_detect bot "bob check this out" w
     = (Ok tt, with_calls [mail; mail] w).
Proof.
  cbv zeta. split; [|split; [|split]]; vm_compute; reflexivity.
Qed.

(** ** A capability that was never configured *)

Ltac setup_unfold :=
  cbv [setup EMAIL bind gets modify ret pushover_init global_pushover
       smtplib_SMTP SMTP_login global_SMTP is_not_literal sql_create_table];
  cbn.

Ltac split_on x := destruct x eqn:?; cbn in *.

Ltac setup_table w :=
  split_on (check_table (ext w)); [|split_on (create_table (ext w))].

Ltac setup_mail bot w :=
  split_on (smtp_connect (ext w) (email_server bot) (email_port bot));
  [|split_on (email_username bot);
    [split_on (email_password bot);
     [match goal with
      | |- context [if ?b then _ else _] => split_on b
      end;
      [match goal with
       | |- context [smtp_login ?x ?u ?p] => split_on (smtp_login x u p)
       end|]|]|]];
  try setup_table w.

Ltac setup_cases bot w :=
  setup_unfold;
  split_on (PUSHOVER w);
  [split_on (truthy (pushover_app_api bot));
   [split_on (pushover_bound w)|]|];
  try setup_mail bot w.

Lemma setup_clears_flag (bot : Bot) (w : World) :
  truthy (pushover_app_api bot) = false ->
  PUSHOVER (snd (setup bot w)) = false.
Proof.
  intros Hcfg. setup_cases bot w; congruence.
Qed.

Lemma snoc_neq {A : Type} (l : list A) (x : A) : l ++ [x] <> l.
Proof.
  intros H. apply (f_equal (@List.length A)) in H.
  rewrite length_app in H. simpl in H. lia.
Qed.

Lemma dispatch_pushover (bot : Bot) (m : string) (r : Row) (w : World) :
  service r = "pushover"%string ->
  dispatch bot m r w = notify_pushover bot r m w.
Proof. intros H. unfold dispatch. now rewrite H. Qed.

(** C6 as stated fails.  With no push credentials in the
    configuration, [setup] clears [PUSHOVER], yet a message naming "bob"
    makes [nick_detect] raise for bob's pushover record: a [NameError] when
    the library was not importable, the library's own error when it was
    imported but never initialised. *)
Lemma unconfigured_push_counterexample :
  let bot := Scenario.bot_mail_only in
  let absent := Scenario.started Scenario.reachable false bot
                                 Scenario.bob_push in
  let present := Scenario.started Scenario.push_needs_init true bot
                                  Scenario.bob_push in
  PUSHOVER absent = false /\ PUSHOVER present = false
  /\ nick_detect bot "hi bob" absent = (Raise (NameError "pushover"), absent)
  /\ nick_detect bot "hi bob" present
     = (Raise (ServiceError "InitError"),
        with_calls [PushoverSend "tokB" "hi bob"] present).
Proof.
  cbv zeta. split; [|split; [|split]]; vm_compute; reflexivity.
Qed.

(** C6, amended.  When the push credentials are absent [setup] marks the
    capability unavailable, but "pushover" stays in [SERVICES]: dispatching
    a pushover record still runs [notify_pushover] and is never a silent
    no-op, in any world.  Wherever the record stands in the dispatch plan,
    once the records before it have been dispatched an exception its
    dispatch raises leaves [nick_detect] uncaught, in the world of the
    failure; when the name [pushover] is unbound its dispatch does raise. *)
Theorem unconfigured_push_not_inert (bot : Bot) (m : string) (r : Row)
    (w0 w w1 : World) (before after : list Row) :
  truthy (pushover_app_api bot) = false ->
  setup bot w0 = (Ok tt, w) ->
  service r = "pushover"%string ->
  dispatch_plan m (db w) = before ++ r :: after ->
  for_each before (dispatch bot m) w = (Ok tt, w1) ->
  PUSHOVER w = false
  /\ (forall w', dispatch bot m r w' = notify_pushover bot r m w'
                 /\ dispatch bot m r w' <> (Ok tt, w'))
  /\ (forall e w2,
        dispatch bot m r w1 = (Raise e, w2) ->
        nick_detect bot m w = (Raise e, w2))
  /\ (pushover_bound w = false ->
      exists e,
        dispatch bot m r w1 = (Raise e, w1)
        /\ nick_detect bot m w = (Raise e, w1)).
Proof.
  intros Hcfg Hsetup Hsvc Hplan Hbefore.
  assert (forall e w2,
             dispatch bot m r w1 = (Raise e, w2) ->
             nick_detect bot m w = (Raise e, w2)) as Hout.
  { intros e w2 Hr. rewrite nick_detect_plan, Hplan.
    now apply for_each_raises with (w1 := w1). }
  split. { pose proof (setup_clears_flag bot w0 Hcfg) as H.
           now rewrite Hsetup in H. }
  split; [|split; [exact Hout|]].
  - intros w'. split; [now apply dispatch_pushover|].
    rewrite (dispatch_pushover bot m r w' Hsvc).
    unfold notify_pushover, bind, global_pushover.
    destruct (pushover_bound w'); [|discriminate].
    simpl. unfold pushover_send_message.
    destruct (pushover_request _ _ _ _); [discriminate|].
    intros H. injection H as H. apply (f_equal calls) in H. simpl in H.
    now apply snoc_neq in H.
  - intros Hunbound.
    assert (pushover_bound w1 = false) as Hb1.
    { destruct (delivers_only_for_each before (dispatch bot m)
                  (delivers_only_dispatch bot m) w) as [cs Hcs].
      rewrite Hbefore in Hcs. simpl in Hcs. now rewrite Hcs. }
    assert (dispatch bot m r w1 = (Raise (NameError "pushover"), w1))
      as Hraise.
    { rewrite (dispatch_pushover bot m r w1 Hsvc).
      unfold notify_pushover, bind, global_pushover. now rewrite Hb1. }
    eexists. split; [exact Hraise | now apply Hout].
Qed.

Lemma unconfigured_push_not_inert_witness :
  let bot := Scenario.bot_mail_only in
  let t := [mkRow 1 "bob" "email" "bob@example.com";
            mkRow 2 "alice" "pushover" "tokA"] in
  let w0 := imported Scenario.reachable false t in
  let w := Scenario.started Scenario.reachable false bot t in
  let m := "bob and alice"%string in
  let mail := SmtpSendmail (Some "willie@example.com") ["bob@example.com"]
                (mkMIMEText m "[willie] bob and alice..."
                   (Some "willie@example.com") "bob@example.com") in
  let w1 := with_calls [mail] w in
  (truthy (pushover_app_api bot) = false
   /\ setup bot w0 = (Ok tt, w)
   /\ dispatch_plan m (db w)
      = [mkRow 1 "bob" "email" "bob@example.com"]
        ++ mkRow 2 "alice" "pushover" "tokA" :: []
   /\ for_each [mkRow 1 "bob" "email" "bob@example.com"] (dispatch bot m) w
      = (Ok tt, w1))
  /\ PUSHOVER w = false
  /\ nick_detect bot m w = (Raise (NameError "pushover"), w1).
Proof.
  intros bot t w0 w m mail w1.
  assert (truthy (pushover_app_api bot) = false) as Hcfg by reflexivity.
  assert (setup bot w0 = (Ok tt, w)) as Hsetup by reflexivity.
  assert (dispatch_plan m (db w)
          = [mkRow 1 "bob" "email" "bob@example.com"]
            ++ mkRow 2 "alice" "pushover" "tokA" :: []) as Hplan
    by reflexivity.
  assert (for_each [mkRow 1 "bob" "email" "bob@example.com"]
                   (dispatch bot m) w = (Ok tt, w1)) as Hbefore
    by reflexivity.
  split; [now repeat split|].
  destruct (unconfigured_push_not_inert bot m
              (mkRow 2 "alice" "pushover" "tokA") w0 w w1 _ _
              Hcfg Hsetup eq_refl Hplan Hbefore)
    as (Hflag & _ & Hout & _).
  split; [exact Hflag|].
  apply Hout. reflexivity.
Defined.

(** * Further properties of the module *)

(** ** Parsing the arguments of a command *)

Section Words.

Lemma split_space_nonempty (s : string) : PyStr.split_space s <> [].
Proof.
  destruct s as [|c s]; simpl; [discriminate|].
  destruct (Ascii.eqb c " "); [discriminate|].
  destruct (PyStr.split_space s); discriminate.
Qed.

Lemma split_space_join (s : string) :
  PyStr.join " " (PyStr.split_space s) = s.
Proof.
  induction s as [|c s IH]; [reflexivity|].
  cbn [PyStr.split_space].
  destruct (Ascii.eqb_spec c " "%char) as [->|Hc].
  - destruct (PyStr.split_space s) as [|h t] eqn:E;
      [now apply split_space_nonempty in E|].
    change (PyStr.join " " ("" :: h :: t))%string
      with ("" ++ " " ++ PyStr.join " " (h :: t))%string.
    rewrite IH. reflexivity.
  - destruct (PyStr.split_space s) as [|h t] eqn:E;
      [now apply split_space_nonempty in E|].
    destruct t as [|q t]; simpl in *; now rewrite <- IH.
Qed.

Lemma split_space_pieces (s : string) :
  Forall (fun piece => spaceless piece = true) (PyStr.split_space s).
Proof.
  induction s as [|c s IH]; [repeat constructor|].
  cbn [PyStr.split_space].
  destruct (Ascii.eqb c " "%char) eqn:Hc.
  - constructor; [reflexivity | exact IH].
  - destruct (PyStr.split_space s) as [|h t]; [repeat constructor|].
    + simpl. now rewrite Hc.
    + inversion IH; subst. constructor; [|assumption].
      simpl. now rewrite Hc.
Qed.

Lemma split_space_word (s : string) :
  spaceless s = true -> PyStr.split_space s = [s].
Proof.
  induction s as [|c s IH]; [reflexivity|]. simpl.
  destruct (Ascii.eqb c " "%char); simpl; [discriminate|].
  intros H. now rewrite (IH H).
Qed.

Lemma split_space_cons (a b : string) :
  spaceless a = true ->
  PyStr.split_space (a ++ String " " b) = a :: PyStr.split_space b.
Proof.
  induction a as [|c a IH]; [reflexivity|]. simpl.
  destruct (Ascii.eqb c " "%char); simpl; [discriminate|].
  intros H. now rewrite (IH H).
Qed.

End Words.

(** X1.  The argument text of a command names the triple (nick, service,
    parameter) exactly when it is the three words joined by single spaces
    and none of the words holds a space; the words may be empty. *)
Theorem command_words (tr : Trigger) (n s p : string) :
  names tr n s p
  <-> group2 tr = Some (n ++ " " ++ s ++ " " ++ p)%string
      /\ spaceless n = true /\ spaceless s = true /\ spaceless p = true.
Proof.
  unfold names. split.
  - intros (text & Hg & Hs).
    pose proof (split_space_join text) as Hj.
    pose proof (split_space_pieces text) as Hp.
    rewrite Hs in Hj, Hp. simpl in Hj.
    inversion Hp as [|? ? Hn Hp1]; subst.
    inversion Hp1 as [|? ? Hs' Hp2]; subst.
    inversion Hp2 as [|? ? Hp' _]; subst.
    now rewrite Hg.
  - intros (Hg & Hn & Hs & Hp). eexists. split; [exact Hg|].
    change (n ++ " " ++ s ++ " " ++ p)%string
      with (n ++ String " " (s ++ String " " p))%string.
    now rewrite (split_space_cons _ _ Hn), (split_space_cons _ _ Hs),
      (split_space_word _ Hp).
Qed.

(** ** Commands that are turned away or malformed *)

Lemma refused_handle (bot : Bot) (ev : Event) (w : World) :
  refused ev -> handle bot ev w = (Ok tt, w).
Proof.
  destruct ev as [tr|tr|tr|text]; simpl; intros H; try contradiction;
    unfold add_notification, remove_notification, list_notifications;
    (destruct H as [H|H]; rewrite H;
     [reflexivity | now destruct (PyStr.startswith _ _)]).
Qed.

(** X2.  Commands sent in a channel or by someone who is not an
    administrator change nothing at all: after any sequence of them the
    table, the replies and the delivery calls are what they were. *)
Theorem refused_commands_ignored (bot : Bot) (evs : list Event) (w : World) :
  Forall refused evs -> run bot evs w = w.
Proof.
  intros H. induction H as [|ev evs Hev _ IH]; [reflexivity|].
  unfold run in *. simpl. now rewrite (refused_handle bot ev w Hev).
Qed.

Lemma refused_commands_ignored_witness :
  let evs := [AddNotification (mkTrigger "#chan" true (Some "a b c"));
              RemoveNotification (mkTrigger "eve" false (Some "bob email x"));
              ListNotifications (mkTrigger "#chan" false None)] in
  let w := imported Scenario.reachable true Scenario.alice_and_bob in
  Forall refused evs /\ run Scenario.bot_full evs w = w.
Proof.
  intros evs w.
  assert (Forall refused evs) as H.
  { constructor; [left; reflexivity|].
    constructor; [right; reflexivity|].
    constructor; [left; reflexivity|]. constructor. }
  split; [exact H|]. exact (refused_commands_ignored _ evs w H).
Defined.

(** X3.  An authorized add or remove whose argument text is missing raises
    [AttributeError], and one whose text does not split into exactly three
    words raises [ValueError]; in both cases nothing has been changed. *)
Theorem malformed_command_raises (bot : Bot) (tr : Trigger) (w : World) :
  authorized tr ->
  (group2 tr = None ->
   add_notification bot tr w = (Raise (AttributeError "split"), w)
   /\ remove_notification bot tr w = (Raise (AttributeError "split"), w))
  /\ (forall text,
        group2 tr = Some text ->
        List.length (PyStr.split_space text) <> 3%nat ->
        add_notification bot tr w = (Raise (ValueError "unpack"), w)
        /\ remove_notification bot tr w = (Raise (ValueError "unpack"), w)).
Proof.
  intros [Hs Ha]. unfold add_notification, remove_notification.
  rewrite Hs, Ha. simpl. unfold bind, get_notifydb, ret, unpack_args.
  split.
  - intros ->. now split.
  - intros text -> Hlen.
    destruct (PyStr.split_space text) as [|a [|b [|c [|d l]]]];
      simpl in Hlen; now split.
Qed.

Lemma malformed_command_raises_witness :
  let tr := mkTrigger "admin" true (Some "bob email") in
  let w := imported Scenario.reachable true Scenario.alice_and_bob in
  authorized tr
  /\ add_notification Scenario.bot_full tr w = (Raise (ValueError "unpack"), w).
Proof.
  intros tr w.
  assert (authorized tr) as Hauth by (split; reflexivity).
  split; [exact Hauth|].
  destruct (malformed_command_raises Scenario.bot_full tr w Hauth)
    as [_ Hbad].
  apply (Hbad "bob email"%string eq_refl). simpl. lia.
Defined.

(** ** Adding, listing and removing together *)

Lemma filter_keeps_all (f : Row -> bool) (t : Table) :
  filter f t = [] -> filter (fun r => negb (f r)) t = t.
Proof.
  induction t as [|r t IH]; simpl; [reflexivity|].
  destruct (f r); simpl; [discriminate|]. intros H. now rewrite (IH H).
Qed.

(** X5.  Round trip: when the words are ASCII without a quote and no
    stored record carries the cells they denote, an accepted add followed
    by the remove of the same words gives back the table as it was (ids
    distinct); the chat has received the confirmation of the add and the
    echo of the removed record. *)
Theorem add_then_remove_restores (bot : Bot) (tr : Trigger) (n s p : string)
    (w : World) :
  authorized tr -> names tr n s p ->
  Sql.literal_safe n = true -> Sql.literal_safe s = true ->
  Sql.literal_safe p = true ->
  Db.keys_unique (db w) ->
  Db.select (same_tuple (stored w n) (stored w s) (stored w p)) (db w) = [] ->
  let w' := run bot [AddNotification tr; RemoveNotification tr] w in
  db w' = db w
  /\ said w'
     = said w
       ++ [Reply ("We will now notify '" ++ n ++ "' using '" ++ s
                  ++ "' with '" ++ p ++ "'");
           removal_echo (mkRow (next_pkey (db w)) (stored w n) (stored w s)
                               (stored w p))].
Proof.
  intros Hauth Hn _ _ _ Hu Hnone w'. unfold w', run.
  cbn [fold_left handle].
  rewrite (add_notification_accepted bot tr n s p w Hauth Hn).
  cbn [snd].
  set (n' := stored w n) in *. set (s' := stored w s) in *.
  set (p' := stored w p) in *.
  set (r := mkRow (next_pkey (db w)) n' s' p').
  set (w1 := with_said _ _).
  assert (db w1 = db w ++ [r]) as Hdb1 by reflexivity.
  assert (said w1
          = said w ++ [Reply ("We will now notify '" ++ n ++ "' using '" ++ s
                              ++ "' with '" ++ p ++ "'")]) as Hsaid1
    by reflexivity.
  assert (same_tuple n' s' p' r = true) as Hr
    by (unfold same_tuple, r; simpl; now rewrite !String.eqb_refl).
  assert (Db.select (same_tuple n' s' p') (db w1) = [r]) as Hsel.
  { rewrite Hdb1. unfold Db.select in *. rewrite filter_app, Hnone. simpl.
    now rewrite Hr. }
  assert (Db.keys_unique (db w1)) as Hu1.
  { rewrite Hdb1. apply keys_unique_insert; [exact Hu|].
    apply next_pkey_above. }
  pose proof (remove_notification_accepted bot tr n s p w1 Hauth Hn) as Hrun.
  cbv zeta in Hrun.
  change (stored w1 n) with n' in Hrun. change (stored w1 s) with s' in Hrun.
  change (stored w1 p) with p' in Hrun.
  rewrite Hrun. cbn [snd].
  rewrite (delete_selected _ _ Hu1), Hsel.
  generalize dependent w1. intros w1 Hdb1 Hsaid1 _ _.
  unfold with_said, with_db. cbn [db said]. rewrite Hdb1, Hsaid1. split.
  - rewrite filter_app. unfold Db.select in Hnone.
    rewrite (filter_keeps_all _ _ Hnone). simpl. rewrite Hr. simpl.
    apply app_nil_r.
  - simpl. now rewrite <- app_assoc.
Qed.

Lemma add_then_remove_restores_witness :
  let tr := admin_command "carol" "pushover" "0042" in
  let w := imported Scenario.reachable true Scenario.alice_and_bob in
  (authorized tr /\ names tr "carol" "pushover" "0042"
   /\ Sql.literal_safe "carol" = true /\ Sql.literal_safe "pushover" = true
   /\ Sql.literal_safe "0042" = true
   /\ Db.keys_unique (db w)
   /\ Db.select (same_tuple (stored w "carol") (stored w "pushover")
                            (stored w "0042")) (db w) = [])
  /\ db (run Scenario.bot_full
             [AddNotification tr; RemoveNotification tr] w) = db w.
Proof.
  intros tr w.
  assert (authorized tr) as Hauth by (split; reflexivity).
  assert (names tr "carol" "pushover" "0042") as Hn
    by (eexists; split; reflexivity).
  assert (Db.keys_unique (db w)) as Hu.
  { repeat constructor; simpl; intuition discriminate. }
  split; [now repeat split|].
  exact (proj1 (add_then_remove_restores Scenario.bot_full tr
                  "carol" "pushover" "0042" w Hauth Hn
                  eq_refl eq_refl eq_refl Hu eq_refl)).
Defined.

Lemma list_loop (rows : list Row) (w : World) :
  for_each rows (fun row => bot_say (format_row row)) w
  = (Ok tt, with_said (said w ++ map listing_line rows) w).
Proof.
  revert w; induction rows as [|r rows IH]; intros w; simpl.
  - unfold ret, with_said. rewrite app_nil_r. now destruct w.
  - unfold bind, bot_say, modify. rewrite IH. unfold with_said. simpl.
    now rewrite <- app_assoc.
Qed.

(** X6.  An authorized [list_notifications] says one line per record, in
    table order, each line being the id, nickname, service and parameter
    joined by " | "; it changes nothing else, whatever its argument text. *)
Theorem list_notifications_says_table (bot : Bot) (tr : Trigger) (w : World) :
  authorized tr ->
  list_notifications bot tr w
  = (Ok tt, with_said (said w ++ map listing_line (db w)) w)
  /\ forall r,
       listing_line r
       = Say (PyStr.str_int (pkey r) ++ " | " ++ nick r ++ " | "
              ++ service r ++ " | " ++ parameter r).
Proof.
  intros [Hs Ha]. split; [|reflexivity].
  unfold list_notifications. rewrite Hs, Ha. simpl.
  unfold bind, sql_select, gets, Db.select. rewrite filter_all.
  apply list_loop.
Qed.

Lemma list_notifications_says_table_witness :
  let tr := mkTrigger "admin" true None in
  let w := imported Scenario.reachable true Scenario.alice_and_bob in
  authorized tr
  /\ said (snd (list_notifications Scenario.bot_full tr w))
     = [Say "1 | alice | pushover | tokA";
        Say "2 | bob | email | bob@example.com"].
Proof.
  intros tr w.
  assert (authorized tr) as Hauth by (split; reflexivity).
  split; [exact Hauth|].
  rewrite (proj1 (list_notifications_says_table Scenario.bot_full tr w Hauth)).
  reflexivity.
Defined.

(** ** The order of the table *)

Section Ascending.

Lemma sorted_snoc (l : list Z) (x : Z) :
  StronglySorted Z.lt l -> Forall (fun k => k < x) l ->
  StronglySorted Z.lt (l ++ [x]).
Proof.
  induction l as [|a l IH]; simpl; intros Hs Hlt.
  - repeat constructor.
  - inversion Hs as [|? ? Hs' Ha]; subst.
    inversion Hlt as [|? ? Hax Hlt']; subst.
    constructor; [now apply IH|].
    apply Forall_app. split; [exact Ha | now repeat constructor].
Qed.

Lemma sorted_filter (f : Row -> bool) (t : Table) :
  ids_ascending t -> ids_ascending (filter f t).
Proof.
  unfold ids_ascending, Db.keys.
  induction t as [|r t IH]; simpl; intros Hs; [constructor|].
  inversion Hs as [|? ? Hs' Hr]; subst.
  destruct (f r); simpl; [|now apply IH].
  constructor; [now apply IH|].
  rewrite Forall_forall in *. intros k Hk. apply Hr.
  apply in_map_iff in Hk as (r' & <- & Hin).
  apply filter_In in Hin as [Hin _]. now apply in_map.
Qed.

Lemma ascending_unique (t : Table) : ids_ascending t -> Db.keys_unique t.
Proof.
  unfold ids_ascending, Db.keys_unique.
  induction (Db.keys pkey t) as [|k ks IH]; intros Hs; [constructor|].
  inversion Hs as [|? ? Hs' Hk]; subst.
  constructor; [|now apply IH].
  intros Hin. rewrite Forall_forall in Hk. specialize (Hk k Hin). lia.
Qed.

Lemma handle_ascending (bot : Bot) (ev : Event) (w : World) :
  ids_ascending (db w) -> ids_ascending (db (snd (handle bot ev w))).
Proof.
  intros Hs. destruct ev as [tr|tr|tr|text]; simpl.
  - destruct (add_notification_db bot tr w) as [->|(n & s & p & ->)];
      [exact Hs|].
    unfold ids_ascending, Db.keys. rewrite map_app. simpl.
    apply sorted_snoc; [exact Hs | apply next_pkey_above].
  - destruct (remove_notification_db bot tr w) as [f ->].
    now apply sorted_filter.
  - now rewrite keeps_db_list_notifications.
  - pose proof (delivers_only_nick_detect bot text) as Hd.
    now rewrite (delivers_only_keeps_db _ Hd).
Qed.

End Ascending.

(** X7.  The handlers keep the table in strictly increasing order of id:
    if the rows start out that way (as in an empty table) they stay that
    way through any sequence of events, so the newest record is always the
    last row and no two rows share an id. *)
Theorem table_stays_ascending (bot : Bot) (evs : list Event) (w : World) :
  ids_ascending (db w) ->
  Forall (fun w' => ids_ascending (db w') /\ Db.keys_unique (db w'))
         (history bot evs w).
Proof.
  revert w; induction evs as [|ev evs IH]; intros w Hs; simpl.
  - constructor; [|constructor]. split; [exact Hs | now apply ascending_unique].
  - constructor; [split; [exact Hs | now apply ascending_unique]|].
    apply IH. now apply handle_ascending.
Qed.

Lemma table_stays_ascending_witness :
  let evs := [AddNotification (admin_command "alice" "pushover" "tok1");
              Message "hello alice";
              AddNotification (admin_command "bob" "email" "bob@example.com");
              RemoveNotification (admin_command "alice" "pushover" "tok1")] in
  let w := imported Scenario.reachable true [] in
  ids_ascending (db w)
  /\ Forall (fun w' => ids_ascending (db w') /\ Db.keys_unique (db w'))
            (history Scenario.bot_full evs w).
Proof.
  intros evs w.
  assert (ids_ascending (db w)) as Hs by constructor.
  split; [exact Hs|].
  exact (table_stays_ascending Scenario.bot_full evs w Hs).
Defined.

(** ** Which records a message dispatches *)

Section PlanContents.



Lemma string_app_assoc (a b c : string) :
  ((a ++ b) ++ c = a ++ (b ++ c))%string.
Proof. induction a as [|x a IH]; simpl; [reflexivity | now rewrite IH]. Qed.

Lemma string_app_nil_r (a : string) : (a ++ "" = a)%string.
Proof. induction a as [|x a IH]; simpl; [reflexivity | now rewrite IH]. Qed.

Lemma count_select (t : Table) (n : string) (r : Row) :
  count_occ Row_eq_dec (Db.select (fun x => String.eqb (nick x) n) t) r
  = if string_dec n (nick r) then count_occ Row_eq_dec t r else 0%nat.
Proof.
  unfold Db.select. induction t as [|x t IH]; simpl.
  - now destruct (string_dec n (nick r)).
  - destruct (String.eqb_spec (nick x) n) as [Hx|Hx]; simpl;
      destruct (Row_eq_dec x r) as [->|Hxr]; rewrite ?IH;
      destruct (string_dec n (nick r)) as [Hn|Hn]; congruence.
Qed.

Lemma count_nick_column (t : Table) (n : string) :
  count_occ string_dec (Db.keys nick t) n
  = List.length (Db.select (fun x => String.eqb (nick x) n) t).
Proof.
  unfold Db.keys, Db.select. induction t as [|x t IH]; simpl; [reflexivity|].
  destruct (String.eqb_spec (nick x) n) as [Hx|Hx];
    destruct (string_dec (nick x) n); simpl; congruence.
Qed.

Lemma count_plan (m : string) (t : Table) (r : Row) (nicks : list string) :
  count_occ Row_eq_dec
    (flat_map (fun n => Db.select (fun x => String.eqb (nick x) n) t)
       (filter (fun n => PyStr.contains (PyStr.lower n) (PyStr.lower m))
               nicks)) r
  = if PyStr.contains (PyStr.lower (nick r)) (PyStr.lower m)
    then (count_occ string_dec nicks (nick r) * count_occ Row_eq_dec t r)%nat
    else 0%nat.
Proof.
  induction nicks as [|n nicks IH]; simpl.
  - now destruct (PyStr.contains _ _).
  - destruct (PyStr.contains (PyStr.lower n) (PyStr.lower m)) eqn:Hn; simpl.
    + rewrite count_occ_app, IH, count_select.
      destruct (string_dec n (nick r)) as [->|Hne].
      * rewrite Hn. simpl. reflexivity.
      * destruct (PyStr.contains _ _); reflexivity.
    + rewrite IH. destruct (string_dec n (nick r)) as [->|Hne];
        [now rewrite Hn | reflexivity].
Qed.

End PlanContents.

(** X10.  Every record is dispatched once for each record stored under its
    nickname: in a table with distinct ids, a stored record whose nickname
    the message mentions occurs in the dispatch plan as many times as there
    are records with that nickname. *)
Theorem dispatch_multiplicity (m : string) (t : Table) (r : Row) :
  Db.keys_unique t -> In r t -> mentions m (nick r) ->
  count_occ Row_eq_dec (dispatch_plan m t) r
  = List.length (Db.select (fun x => String.eqb (nick x) (nick r)) t).
Proof.
  intros Hu Hr Hm. unfold dispatch_plan. rewrite count_plan.
  apply contains_substring in Hm. rewrite Hm.
  assert (count_occ Row_eq_dec t r = 1%nat) as Hone.
  { apply NoDup_count_occ'; [|exact Hr].
    apply (NoDup_map_inv pkey). exact Hu. }
  rewrite Hone, Nat.mul_1_r. apply count_nick_column.
Qed.

Lemma dispatch_multiplicity_witness :
  let t := [mkRow 1 "bob" "email" "bob@example.com";
            mkRow 2 "alice" "pushover" "tokA";
            mkRow 3 "bob" "pushover" "tokB";
            mkRow 4 "bob" "email" "bob@example.org"] in
  let r := mkRow 3 "bob" "pushover" "tokB" in
  (Db.keys_unique t /\ In r t /\ mentions "hi Bob" (nick r))
  /\ count_occ Row_eq_dec (dispatch_plan "hi Bob" t) r = 3%nat.
Proof.
  intros t r.
  assert (Db.keys_unique t) as Hu.
  { repeat constructor; simpl; intuition discriminate. }
  assert (In r t) as Hr by (right; right; left; reflexivity).
  assert (mentions "hi Bob" (nick r)) as Hm
    by (apply contains_substring; reflexivity).
  split; [now repeat split|].
  rewrite (dispatch_multiplicity "hi Bob" t r Hu Hr Hm). reflexivity.
Defined.

(** ** The matcher when the services answer, and when they do not *)

Section Deliveries.

Variables (bot : Bot) (m : string).






End Deliveries.

(** ** Letter case *)

Section Case.










End Case.

(** ** Mention matching *)









(** ** Consecutive ids *)




(** ** Setting the services up *)

(** X15.  When [setup] returns, the global [SMTP] holds a session to the
    configured server and port, logged in exactly when a user name and a
    password are both configured; [PUSHOVER] stays set only if it was set
    and an application token is configured, in which case the library has
    been given that token, and otherwise the library's token is left as it
    was. *)
Theorem setup_success (bot : Bot) (w0 w : World) :
  setup bot w0 = (Ok tt, w) ->
  (exists session,
      SMTP w = Some session
      /\ smtp_host session = email_server bot
      /\ smtp_port session = email_port bot
      /\ smtp_auth session
         = match email_username bot, email_password bot with
           | Some user, Some password =>
               if (truthy (Some user) && truthy (Some password))%bool
               then Some (user, password) else None
           | _, _ => None
           end)
  /\ PUSHOVER w = (PUSHOVER w0 && truthy (pushover_app_api bot))%bool
  /\ (PUSHOVER w = true ->
      pushover_token w = pushover_app_api bot /\ pushover_bound w = true)
  /\ (PUSHOVER w = false -> pushover_token w = pushover_token w0).
Proof.
  setup_cases bot w0; intros H; inversion H; subst; clear H; cbn;
    (split; [eexists; repeat split; eassumption || reflexivity|]);
    repeat split; intros; congruence.
Qed.

Lemma setup_success_witness :
  let bot := Scenario.bot_full in
  let w0 := imported Scenario.reachable true Scenario.bob_mail in
  let w := Scenario.started Scenario.reachable true bot Scenario.bob_mail in
  setup bot w0 = (Ok tt, w)
  /\ PUSHOVER w = true /\ pushover_token w = Some "apptoken"%string.
Proof.
  intros bot w0 w.
  assert (setup bot w0 = (Ok tt, w)) as H by reflexivity.
  split; [exact H|].
  destruct (setup_success bot w0 w H) as (_ & Hflag & Htoken & _).
  split; [exact Hflag|]. exact (proj1 (Htoken Hflag)).
Defined.

(** X16.  When the mail server refuses the connection, [setup] run on the
    freshly imported module raises that error and leaves the name [SMTP]
    unbound; from then on a message whose first dispatched record is a mail
    record makes [nick_detect] raise [NameError] before any call is
    placed. *)
Theorem failed_connect_leaves_no_session (bot : Bot) (x : Extern) (ok : bool)
    (t : Table) (e : Exn) :
  smtp_connect x (email_server bot) (email_port bot) = Some e ->
  let w := snd (setup bot (imported x ok t)) in
  fst (setup bot (imported x ok t)) = Raise e
  /\ SMTP w = None /\ db w = t
  /\ forall m r after,
       service r = "email"%string ->
       dispatch_plan m t = r :: after ->
       nick_detect bot m w = (Raise (NameError "SMTP"), w).
Proof.
  intros Hc w.
  assert (fst (setup bot (imported x ok t)) = Raise e
          /\ SMTP w = None /\ db w = t) as (Hf & Hs & Hdb).
  { unfold w. setup_unfold. destruct ok; cbn;
      [destruct (truthy (pushover_app_api bot)); cbn|];
      rewrite Hc; cbn; repeat split. }
  repeat split; try assumption.
  intros m r after Hsvc Hplan.
  rewrite nick_detect_plan, Hdb, Hplan.
  apply (for_each_raises [] after r (dispatch bot m) w w w); [reflexivity|].
  unfold dispatch. rewrite Hsvc. cbn.
  unfold notify_email, SMTP_sendmail, bind, global_SMTP. now rewrite Hs.
Qed.

Lemma failed_connect_leaves_no_session_witness :
  let bot := Scenario.bot_full in
  let w := snd (setup bot (imported Scenario.mail_down true
                                    Scenario.bob_mail)) in
  smtp_connect Scenario.mail_down (email_server bot) (email_port bot)
  = Some (ServiceError "connection refused")
  /\ nick_detect bot "hi bob" w = (Raise (NameError "SMTP"), w).
Proof.
  intros bot w. split; [reflexivity|].
  destruct (failed_connect_leaves_no_session bot Scenario.mail_down true
              Scenario.bob_mail (ServiceError "connection refused") eq_refl)
    as (_ & _ & _ & H).
  apply (H "hi bob"%string (mkRow 1 "bob" "email" "bob@example.com") []);
    reflexivity.
Defined.

(** ** Duplicate subscriptions *)





(** ** Cells *)

Example stored_forms :
  let cell := Sql.affinity (fun word => word) in
  (cell "0123", cell "000", cell "42", cell "bob", cell "12a", cell "")
  = ("123", "0", "42", "bob", "12a", "")%string.
Proof. reflexivity. Qed.

Example textual_words :
  (Sql.textual "bob", Sql.textual "bob@example.com", Sql.textual "42",
   Sql.textual "1e3", Sql.textual "o'brien")
  = (true, true, false, false, false).
Proof. reflexivity. Qed.
